(** * Randomized SVD ([rsvd.py]): model and verification

    The program is three functions over dense float64 arrays:
    [normalize_columns], [find_Q] (Algorithm 4.1 of Halko, Martinsson and
    Tropp, the randomized range finder) and [rsvd].

    - A 2-D array is its rows together with its column count, so that the
      shapes (0, n) and (m, 0) are both representable, as in numpy.
    - Entries are IEEE-754 binary64 numbers, Rocq's primitive [float];
      division and comparison are the hardware operations, specified bit
      for bit by [SpecFloat].
    - [np.random.randn], [np.matmul], [np.linalg.qr] and [np.linalg.svd]
      are not code of this repository. They form the interface [Numpy]; what
      the program relies on (the shapes they return, the order of the
      singular values) is the contract [NumpyContract]. The singular
      value decomposition may raise LinAlgError, and [rsvd] itself can
      make it do so: a zero column of the sketch is normalized to 0/0,
      and the nan reaches the array that is decomposed.
    - Python exceptions are the [Raise] results; the global generator of
      [np.random] is a state threaded through the monad [np]. *)

From Stdlib Require Import ZArith List Bool Lia Floats.
Import ListNotations.

(** ** Arrays *)

(** A float64 array of two dimensions. *)
Record ndarray := mkarr { ncols : nat; rows : list (list float) }.

Definition nrows (X : ndarray) : nat := length (rows X).

(** [X.shape] *)
Definition shape (X : ndarray) : nat * nat := (nrows X, ncols X).

(** Every numpy array is rectangular. *)
Definition wf (X : ndarray) : Prop :=
  Forall (fun r => length r = ncols X) (rows X).

(** [X[i, j]], for [i] and [j] inside the shape of a well-formed array.
    (Outside it numpy raises IndexError and this function reads nan: the
    statements below use it inside the shape only.) *)
Definition entry (X : ndarray) (i j : nat) : float :=
  nth j (nth i (rows X) []) nan.

(** [X[:, j]] *)
Definition column (X : ndarray) (j : nat) : list float :=
  map (fun r => nth j r nan) (rows X).

(** [X.T] *)
Definition T (X : ndarray) : ndarray :=
  mkarr (nrows X) (map (column X) (seq 0 (ncols X))).

(** The stop index of the slice [[:k]] along an axis of length [n]: a
    negative [k] counts from the end, and a stop beyond the axis is
    clipped rather than refused. *)
Definition slice_stop (k : Z) (n : nat) : nat :=
  if (k <? 0)%Z then n - Z.to_nat (- k) else Nat.min (Z.to_nat k) n.

(** [v[:k]] *)
Definition take_vec (k : Z) (v : list float) : list float :=
  firstn (slice_stop k (length v)) v.

(** [X[:, :k]] *)
Definition take_cols (k : Z) (X : ndarray) : ndarray :=
  mkarr (slice_stop k (ncols X)) (map (firstn (slice_stop k (ncols X))) (rows X)).

(** [X[:k, :]] *)
Definition take_rows (k : Z) (X : ndarray) : ndarray :=
  mkarr (ncols X) (firstn (slice_stop k (nrows X)) (rows X)).

Fixpoint zip_with {A B C : Type} (f : A -> B -> C) (xs : list A) (ys : list B) : list C :=
  match xs, ys with
  | x :: xs', y :: ys' => f x y :: zip_with f xs' ys'
  | _, _ => []
  end.

(** No entry of the array is nan or infinite. *)
Definition all_finite (X : ndarray) : bool :=
  forallb (forallb is_finite) (rows X).

(** Non-increasing order of a vector, as [np.linalg.svd] returns the
    singular values. *)
Fixpoint descending (v : list float) : bool :=
  match v with
  | a :: (b :: _) as t => (b <=? a)%float && descending t
  | _ => true
  end.

(** ** Exceptions and the generator state *)

Inductive exn := ValueError | LinAlgError.

Inductive result (A : Type) := Ok (a : A) | Raise (e : exn).
Arguments Ok {A} a.
Arguments Raise {A} e.

(** A computation that may raise and may advance the random generator. *)
Definition np (G A : Type) : Type := G -> result A * G.

Definition ret {G A : Type} (a : A) : np G A := fun s => (Ok a, s).

Definition bind {G A B : Type} (c : np G A) (f : A -> np G B) : np G B :=
  fun s =>
    match c s with
    | (Ok a, s') => f a s'
    | (Raise e, s') => (Raise e, s')
    end.

Definition lift {G A : Type} (r : result A) : np G A := fun s => (r, s).

Notation "x <- c ;; k" := (bind c (fun x => k))
  (at level 61, c at next level, right associativity).
Notation "' pat <- c ;; k" := (bind c (fun x => match x with pat => k end))
  (at level 61, pat pattern, c at next level, right associativity).

(** ** The numpy primitives the program calls *)

Class Numpy := {
  (** state of the global generator behind [np.random] *)
  rng : Type;
  (** [np.random.randn(d0, d1)] *)
  random_randn : nat -> nat -> rng -> ndarray * rng;
  (** [np.matmul(X, Y)] *)
  matmul : ndarray -> ndarray -> result ndarray;
  (** [np.linalg.qr(Y, mode='reduced')] *)
  linalg_qr : ndarray -> result (ndarray * ndarray);
  (** [np.linalg.svd(B)], with its default [full_matrices=True] *)
  linalg_svd : ndarray -> result (ndarray * list float * ndarray)
}.

(** What numpy documents of them. For an (M, N) argument and
    K = min(M, N): the reduced QR factors have shapes (M, K) and (K, N);
    the full SVD, when it returns, gives u of shape (M, M), s of length K
    in descending order, and vh of shape (N, N). The SVD need not return:
    it raises LinAlgError when the computation does not converge, which
    is what happens on an array holding a nan. It is only assumed to
    return on an array with no row, where there is nothing to compute. *)
Class NumpyContract (N : Numpy) : Prop := {
  randn_shape : forall d0 d1 s,
    wf (fst (random_randn d0 d1 s)) /\ shape (fst (random_randn d0 d1 s)) = (d0, d1);
  matmul_shape : forall X Y, wf X -> wf Y -> ncols X = nrows Y ->
    exists Z, matmul X Y = Ok Z /\ wf Z /\ shape Z = (nrows X, ncols Y);
  matmul_mismatch : forall X Y, ncols X <> nrows Y -> matmul X Y = Raise ValueError;
  qr_shape : forall Y, wf Y ->
    exists Q R, linalg_qr Y = Ok (Q, R) /\ wf Q /\ wf R /\
      shape Q = (nrows Y, Nat.min (nrows Y) (ncols Y)) /\
      shape R = (Nat.min (nrows Y) (ncols Y), ncols Y);
  svd_no_row : forall B, wf B -> nrows B = 0 ->
    exists S Sigma Vt, linalg_svd B = Ok (S, Sigma, Vt);
  svd_raises : forall B e, linalg_svd B = Raise e -> e = LinAlgError;
  svd_shape : forall B S Sigma Vt, wf B -> linalg_svd B = Ok (S, Sigma, Vt) ->
    wf S /\ wf Vt /\
    shape S = (nrows B, nrows B) /\
    length Sigma = Nat.min (nrows B) (ncols B) /\
    shape Vt = (ncols B, ncols B) /\
    descending Sigma = true
}.

(** ** The program *)

(** [np.maximum] on two scalars, as numpy's scalar loop computes it:
    [(a >= b || isnan(a)) ? a : b]. A nan on either side wins. Between
    +0.0 and -0.0, which compare equal, this keeps the first; numpy's
    vectorized reductions may keep either, depending on the layout of the
    array. No statement below depends on that choice: what is used of the
    maximum is [column_max], which either zero meets. *)
Definition fmaximum (a b : float) : float :=
  if (b <=? a)%float || is_nan a then a else b.

(** [X.max(axis=0)]: the rows are folded into the first one. Reducing
    along an axis of length zero raises ValueError. *)
Definition amax0 (X : ndarray) : result (list float) :=
  match rows X with
  | [] => Raise ValueError
  | r :: rs => Ok (fold_left (zip_with fmaximum) rs r)
  end.

(** [X / v] for [v] of length [ncols X]: [v] is broadcast along the
    rows. Division by zero is not an error for float64 arrays. *)
Definition divide_rows (X : ndarray) (v : list float) : ndarray :=
  mkarr (ncols X) (map (fun r => zip_with PrimFloat.div r v) (rows X)).

(** [return X / X.max(axis=0)] *)
Definition normalize_columns (X : ndarray) : result ndarray :=
  match amax0 X with
  | Ok v => Ok (divide_rows X v)
  | Raise e => Raise e
  end.

(** What [rsvd] returns: a 3-tuple, or a 4-tuple when [return_Q]. *)
Inductive rsvd_result :=
| Ret3 (U : ndarray) (Sigma : list float) (Vt : ndarray)
| Ret4 (U : ndarray) (Sigma : list float) (Vt : ndarray) (Q : ndarray).

Section Program.
Context {N : Numpy}.

(** [mm = np.matmul] *)
Definition mm : ndarray -> ndarray -> result ndarray := matmul.

(** [np.random.randn(n, l)] for a Python integer [l]: a negative
    dimension raises ValueError before anything is drawn. *)
Definition np_random_randn (n : nat) (l : Z) : np rng ndarray :=
  fun s =>
    if (l <? 0)%Z then (Raise ValueError, s)
    else let (Omega, s') := random_randn n (Z.to_nat l) s in (Ok Omega, s').

Definition find_Q (A : ndarray) (l : Z) : np rng ndarray :=
  let '(m, n) := shape A in
  Omega <- np_random_randn n l ;;
  Y <- lift (mm A Omega) ;;
  Y <- lift (normalize_columns Y) ;;
  ' (Q, R) <- lift (linalg_qr Y) ;;
  ret Q.

Definition rsvd (A : ndarray) (k : Z) (l : option Z) (return_Q : bool) : np rng rsvd_result :=
  let l := match l with None => (2 * k)%Z | Some l => l end in
  Q <- find_Q A l ;;
  B <- lift (mm (T Q) A) ;;
  ' (S_, Sigma, Vt) <- lift (linalg_svd B) ;;
  U <- lift (mm Q S_) ;;
  if return_Q
  then ret (Ret4 (take_cols k U) (take_vec k Sigma) (take_rows k Vt) Q)
  else ret (Ret3 (take_cols k U) (take_vec k Sigma) (take_rows k Vt)).

(** The intermediate values of Stage A on input [A], [l] from generator
    state [s]. *)
Definition stage_A (A : ndarray) (l : Z) (s : rng)
    (Omega Y Yn Q R : ndarray) (s' : rng) : Prop :=
  random_randn (ncols A) (Z.to_nat l) s = (Omega, s') /\
  mm A Omega = Ok Y /\
  normalize_columns Y = Ok Yn /\
  linalg_qr Yn = Ok (Q, R).

(** The intermediate values of Stage B. *)
Definition stage_B (A Q B S : ndarray) (Sigma : list float) (Vt U : ndarray) : Prop :=
  mm (T Q) A = Ok B /\
  linalg_svd B = Ok (S, Sigma, Vt) /\
  mm Q S = Ok U.

End Program.

(** ** A fixed backend

    The contract is met by at least one backend: a linear congruential
    stream for the generator, the textbook matrix product, and, for the
    two factorizations, factors with the documented shapes filled with
    the simplest values (leading columns of the identity, zero singular
    values). It serves to run the program on concrete arrays. *)
Module Fixture.

Definition lcg (s : Z) : Z := ((1103515245 * s + 12345) mod 2147483648)%Z.

(** A sample in [-1, 1) read off the generator state. *)
Definition sample (s : Z) : float :=
  (of_uint63 (Uint63.of_Z s) / 1073741824 - 1)%float.

Fixpoint draw_row (n : nat) (s : Z) : list float * Z :=
  match n with
  | O => ([], s)
  | S n' =>
      let s1 := lcg s in
      let (r, s2) := draw_row n' s1 in
      (sample s1 :: r, s2)
  end.

Fixpoint draw_rows (m n : nat) (s : Z) : list (list float) * Z :=
  match m with
  | O => ([], s)
  | S m' =>
      let (r, s1) := draw_row n s in
      let (rs, s2) := draw_rows m' n s1 in
      (r :: rs, s2)
  end.

Definition randn (d0 d1 : nat) (s : Z) : ndarray * Z :=
  let (rs, s') := draw_rows d0 d1 s in (mkarr d1 rs, s').

Definition dot (u v : list float) : float :=
  fold_left PrimFloat.add (zip_with PrimFloat.mul u v) 0%float.

Definition product (X Y : ndarray) : result ndarray :=
  if ncols X =? nrows Y
  then Ok (mkarr (ncols Y)
             (map (fun r => map (fun j => dot r (column Y j)) (seq 0 (ncols Y))) (rows X)))
  else Raise ValueError.

(** The leading [n] columns of the identity of order [m]. *)
Definition eye (m n : nat) : ndarray :=
  mkarr n (map (fun i => map (fun j => if i =? j then 1%float else 0%float) (seq 0 n))
             (seq 0 m)).

Definition qr (Y : ndarray) : result (ndarray * ndarray) :=
  let k := Nat.min (nrows Y) (ncols Y) in
  Ok (eye (nrows Y) k, mkarr (ncols Y) (firstn k (rows Y))).

Definition svd (B : ndarray) : result (ndarray * list float * ndarray) :=
  Ok (eye (nrows B) (nrows B),
      repeat 0%float (Nat.min (nrows B) (ncols B)),
      eye (ncols B) (ncols B)).

Definition backend : Numpy :=
  {| rng := Z;
     random_randn := randn;
     matmul := product;
     linalg_qr := qr;
     linalg_svd := svd |}.

End Fixture.

(** ** A second backend, which passes nan on

    Here the reduced QR factorization is the classical Gram-Schmidt
    process on the leading columns, so that a nan in the sketch reaches
    Q and B as it does through LAPACK, and the singular value
    decomposition raises LinAlgError on an array that holds a nan or an
    infinity, as numpy's does. *)
Module GramSchmidt.

(** [a * x + y] on vectors. *)
Definition axpy (a : float) (x y : list float) : list float :=
  zip_with (fun xi yi => (a * xi + yi)%float) x y.

(** [c] minus its components along the vectors [qs], scaled to norm 1. *)
Definition orthonormalize (qs : list (list float)) (c : list float) : list float :=
  let v := fold_left (fun v q => axpy (- Fixture.dot q c)%float q v) qs c in
  map (fun x => (x / sqrt (Fixture.dot v v))%float) v.

Fixpoint gram_schmidt (qs cs : list (list float)) : list (list float) :=
  match cs with
  | [] => qs
  | c :: cs' => gram_schmidt (qs ++ [orthonormalize qs c]) cs'
  end.

Definition qr (Y : ndarray) : result (ndarray * ndarray) :=
  let k := Nat.min (nrows Y) (ncols Y) in
  let qs := gram_schmidt [] (firstn k (rows (T Y))) in
  Ok (T (mkarr (nrows Y) qs),
      mkarr (ncols Y)
        (map (fun q => map (fun j => Fixture.dot q (column Y j)) (seq 0 (ncols Y))) qs)).

Definition svd (B : ndarray) : result (ndarray * list float * ndarray) :=
  if all_finite B then Fixture.svd B else Raise LinAlgError.

Definition backend : Numpy :=
  {| rng := Z;
     random_randn := Fixture.randn;
     matmul := Fixture.product;
     linalg_qr := qr;
     linalg_svd := svd |}.

End GramSchmidt.

(** ** Vocabulary of the statements *)

(** The tuple [rsvd] returns, from the factors of Stage B. *)
Definition returned (k : Z) (return_Q : bool) (U : ndarray) (Sigma : list float)
    (Vt Q : ndarray) : rsvd_result :=
  if return_Q
  then Ret4 (take_cols k U) (take_vec k Sigma) (take_rows k Vt) Q
  else Ret3 (take_cols k U) (take_vec k Sigma) (take_rows k Vt).

(** The binary64 number one, [0x1p0], as [SpecFloat] writes it. *)
Definition sf_one : spec_float := S754_finite false 4503599627370496 (-52).

(** [x] is positive, finite and not zero. *)
Definition pos_finite (x : float) : bool := ((0 <? x) && (x <? infinity))%float.

(** [x] is negative, finite and not zero. *)
Definition neg_finite (x : float) : bool := ((x <? 0) && (neg_infinity <? x))%float.

(** [d] is the maximum of the column [c] as [np.max] defines it: nan as
    soon as the column holds a nan, otherwise an entry of the column that
    no entry exceeds. *)
Definition column_max (c : list float) (d : float) : Prop :=
  (Exists (fun x => is_nan x = true) c -> is_nan d = true) /\
  (Forall (fun x => is_nan x = false) c ->
   In d c /\ Forall (fun x => (x <=? d)%float = true) c).

(** [v] is a value that [X.max(axis=0)] may take: one maximum per
    column. *)
Definition maxima (X : ndarray) (v : list float) : Prop :=
  length v = ncols X /\
  forall j, j < ncols X -> column_max (column X j) (nth j v nan).

(** What [normalize_columns] returns, entry by entry: the array [Y] is
    [X] divided by the vector [v], one of the vectors that [X.max(axis=0)]
    may take. *)
Definition quotient_by (X Y : ndarray) (v : list float) : Prop :=
  wf Y /\ shape Y = shape X /\ maxima X v /\
  forall i j, i < nrows X -> j < ncols X ->
    entry Y i j = (entry X i j / nth j v nan)%float.

(** The entry of largest absolute value of a column (the first one among
    equals). This follows the wording "maximum-magnitude entry" of the
    specification, not the code: it is what [normalize_columns] is compared
    with. *)
Definition max_magnitude_entry (c : list float) : float :=
  fold_left (fun a x => if (abs a <? abs x)%float then x else a) (tl c) (hd nan c).

(** ** Inputs of the examples

    Decimal literals denote the nearest binary64 number, as in Python. *)
#[local] Set Warnings "-inexact-float".

(** The array of the docstring of [normalize_columns]. *)
Definition X_doc : ndarray :=
  mkarr 3 [[1000; 10; 0.5]; [765; 5; 0.35]; [800; 7; 0.09]]%float.

(** One column whose entry of largest magnitude is negative. *)
Definition X_mixed : ndarray := mkarr 1 [[-5]; [1]]%float.

(** One column of negative entries. *)
Definition X_neg : ndarray := mkarr 1 [[-2]; [-4]]%float.

(** The maximum of the second column is zero. *)
Definition X_zero : ndarray := mkarr 2 [[3; 0]; [1; -1]]%float.

(** Its second column is the column of [X_mixed]. *)
Definition X_pair : ndarray := mkarr 2 [[1; -5]; [3; 1]]%float.

(** A nan in the second column. *)
Definition X_nan : ndarray := mkarr 2 [[1; nan]; [2; 3]]%float.

(** The maximum of the first column is plus infinity. *)
Definition X_inf : ndarray := mkarr 2 [[infinity; 1]; [2; 3]]%float.

(** Inputs of [rsvd], named by their shapes. *)
Definition A_1x1 : ndarray := mkarr 1 [[1]]%float.
Definition A_1x3 : ndarray := mkarr 3 [[1; 2; 3]]%float.
Definition A_2x3 : ndarray := mkarr 3 [[1; 2; 3]; [4; 5; 6]]%float.
Definition A_0x3 : ndarray := mkarr 3 [].

(** The zero matrix of shape (2, 3). *)
Definition A_zero : ndarray := mkarr 3 [[0; 0; 0]; [0; 0; 0]]%float.

(** * Proofs *)

(** ** binary64 arithmetic

    Order and division on [spec_float], then on the primitive [float]
    through the axioms of [FloatAxioms]. Three facts about division carry
    the idempotence of the normalization: [x / x = 1], [x / 1 = x], and
    [x / y <= 1] whenever [x <= y] for a positive finite [y]. *)
Section Binary64.
Local Open Scope Z_scope.

(** Case analysis on every comparison of exponents or mantissas in sight. *)
Ltac cmp_cases :=
  repeat match goal with
  | |- context [Z.compare ?a ?b] => destruct (Z.compare_spec a b)
  | H : context [Z.compare ?a ?b] |- _ => destruct (Z.compare_spec a b)
  | |- context [Pos.compare_cont Eq ?a ?b] =>
      change (Pos.compare_cont Eq a b) with (Pos.compare a b);
      destruct (Pos.compare_spec a b)
  | H : context [Pos.compare_cont Eq ?a ?b] |- _ =>
      change (Pos.compare_cont Eq a b) with (Pos.compare a b) in H;
      destruct (Pos.compare_spec a b)
  end.

(** *** The order of [spec_float]: a total preorder away from nan *)

Lemma SFleb_trans x y z : SFleb x y = true -> SFleb y z = true -> SFleb x z = true.
Proof.
  unfold SFleb, SFcompare.
  destruct x as [[]|[]| |[] mx ex], y as [[]|[]| |[] my ey], z as [[]|[]| |[] mz ez];
    simpl; try discriminate; try reflexivity; intros H1 H2;
    cmp_cases; simpl in *; try discriminate; try reflexivity; subst; try lia.
Qed.

Lemma SFleb_total x y : x <> S754_nan -> y <> S754_nan -> SFleb x y = true \/ SFleb y x = true.
Proof.
  unfold SFleb, SFcompare.
  destruct x as [[]|[]| |[] mx ex], y as [[]|[]| |[] my ey];
    simpl; try congruence; auto; intros _ _;
    cmp_cases; simpl in *; auto; subst; try lia.
Qed.

Lemma SFleb_refl x : x <> S754_nan -> SFleb x x = true.
Proof.
  intros H. destruct (SFleb_total x x H H); assumption.
Qed.

Lemma SFleb_not_nan x y : SFleb x y = true -> x <> S754_nan /\ y <> S754_nan.
Proof.
  unfold SFleb, SFcompare.
  destruct x as [[]|[]| |[] mx ex], y as [[]|[]| |[] my ey]; simpl; try discriminate; split; discriminate.
Qed.

(** *** Bit lengths and right shifts *)

Lemma digits2_pos_size p : digits2_pos p = Pos.size p.
Proof. induction p; simpl; congruence. Qed.

Lemma Zdigits2_upper q : 0 <= q -> q < 2 ^ Zdigits2 q.
Proof.
  destruct q as [|p|p]; simpl; intros H; try lia.
  rewrite digits2_pos_size.
  pose proof (Pos.size_gt p) as G.
  apply Pos2Z.pos_lt_pos in G. rewrite Pos2Z.inj_pow in G. exact G.
Qed.

Lemma Zdigits2_nonneg q : 0 <= Zdigits2 q.
Proof. destruct q; simpl; lia. Qed.

Lemma Zdigits2_le q k : 0 <= q -> 0 <= k -> q < 2 ^ k -> Zdigits2 q <= k.
Proof.
  destruct q as [|p|p]; simpl; intros H Hk Hq; try lia.
  rewrite digits2_pos_size.
  pose proof (Pos.size_le p) as G.
  apply Pos2Z.pos_le_pos in G. rewrite Pos2Z.inj_pow in G.
  change (Z.pos p~0) with (2 * Z.pos p) in G.
  destruct (Z_lt_le_dec k (Z.pos (Pos.size p))) as [L|L]; [|exact L].
  exfalso.
  assert (2 ^ Z.pos (Pos.size p) = 2 * 2 ^ (Z.pos (Pos.size p) - 1)) as E.
  { rewrite <- Z.pow_succ_r by lia. f_equal. lia. }
  assert (2 ^ k <= 2 ^ (Z.pos (Pos.size p) - 1)) by (apply Z.pow_le_mono_r; lia).
  lia.
Qed.

Lemma shr_1_m r : 0 <= shr_m r -> shr_m (shr_1 r) = shr_m r / 2.
Proof.
  destruct r as [m b s]; simpl. intros H.
  destruct m as [|p|p]; try lia; try reflexivity.
  destruct p; simpl.
  - apply Z.div_unique with 1; lia.
  - apply Z.div_unique with 0; lia.
  - reflexivity.
Qed.

Lemma pow2_xO p : 2 ^ Z.pos p~0 = 2 ^ Z.pos p * 2 ^ Z.pos p.
Proof. rewrite <- Z.pow_add_r by lia. f_equal. lia. Qed.

Lemma pow2_xI p : 2 ^ Z.pos p~1 = 2 * (2 ^ Z.pos p * 2 ^ Z.pos p).
Proof. rewrite <- Z.pow_add_r, <- Z.pow_succ_r by lia. f_equal. lia. Qed.

Lemma iter_pos_shr_1_m p : forall r, 0 <= shr_m r ->
  shr_m (iter_pos shr_1 p r) = shr_m r / 2 ^ Z.pos p.
Proof.
  assert (forall p, 0 < 2 ^ Z.pos p) as Hpow by (intros; apply Z.pow_pos_nonneg; lia).
  induction p as [p IH|p IH|]; intros r H; simpl iter_pos.
  - assert (0 <= shr_m (shr_1 r)) as H1 by (rewrite shr_1_m by exact H; apply Z.div_pos; lia).
    assert (0 <= shr_m (iter_pos shr_1 p (shr_1 r))) as H2
      by (rewrite IH by exact H1; apply Z.div_pos; [exact H1 | apply Hpow]).
    rewrite IH by exact H2. rewrite IH by exact H1. rewrite shr_1_m by exact H.
    pose proof (Hpow p).
    rewrite !Z.div_div by lia. rewrite pow2_xI. reflexivity.
  - assert (0 <= shr_m (iter_pos shr_1 p r)) as H2
      by (rewrite IH by exact H; apply Z.div_pos; [exact H | apply Hpow]).
    rewrite IH by exact H2. rewrite IH by exact H.
    pose proof (Hpow p).
    rewrite !Z.div_div by lia. rewrite pow2_xO. reflexivity.
  - rewrite shr_1_m by exact H. reflexivity.
Qed.

Lemma shr_m_of_loc q l : shr_m (shr_record_of_loc q l) = q.
Proof. destruct l as [|[]]; reflexivity. Qed.

(** [shr] either leaves the mantissa or divides it by a power of two. *)
Lemma shr_spec r e n : 0 <= shr_m r ->
  (n <= 0 /\ shr r e n = (r, e)) \/
  (0 < n /\ shr_m (fst (shr r e n)) = shr_m r / 2 ^ n /\ snd (shr r e n) = e + n).
Proof.
  intros H. destruct n as [|p|p]; simpl.
  - left; split; [lia|reflexivity].
  - right; split; [lia|]. split; [apply iter_pos_shr_1_m; exact H | reflexivity].
  - left; split; [lia|reflexivity].
Qed.

Lemma round_nearest_even_bounds m l : m <= round_nearest_even m l <= m + 1.
Proof. destruct l as [|[]]; simpl; try lia. destruct (Z.even m); lia. Qed.

Lemma fexp_eq e : fexp prec emax e = Z.max (e - 53) (-1074).
Proof. reflexivity. Qed.

Lemma SFleb_finite_pos m1 e1 m2 e2 :
  e1 < e2 \/ (e1 = e2 /\ Z.pos m1 <= Z.pos m2) ->
  SFleb (S754_finite false m1 e1) (S754_finite false m2 e2) = true.
Proof.
  intros H. unfold SFleb, SFcompare.
  destruct (Z.compare_spec e1 e2); try lia; try reflexivity.
  rewrite Pos.compare_cont_spec. simpl.
  destruct (Pos.compare_spec m1 m2); try reflexivity. lia.
Qed.

(** Rounding a value [q * 2^e] below one, with [e <= -53], gives at most
    one: the mantissa keeps at most 53 bits below exponent -52, and a
    carry out of the rounding lands on one exactly. *)
Lemma binary_round_aux_le_one q e l :
  0 <= q -> q < 2 ^ (- e) -> e <= -53 ->
  SFleb (binary_round_aux prec emax false q e l) sf_one = true.
Proof.
  intros Hq Hlt He.
  assert (Zdigits2 q + e <= 0) as Hd
    by (assert (Zdigits2 q <= - e) by (apply Zdigits2_le; lia); lia).
  pose proof (Zdigits2_upper q Hq) as Hup.
  pose proof (Zdigits2_nonneg q) as Hd0.
  unfold binary_round_aux, shr_fexp.
  rewrite !fexp_eq.
  set (n := Z.max (Zdigits2 q + e - 53) (-1074) - e).
  destruct (shr (shr_record_of_loc q l) e n) as [r1 e1] eqn:E1.
  assert (0 <= shr_m r1 < 2 ^ 53 /\ e1 <= -53) as [Hm1 He1].
  { destruct (shr_spec (shr_record_of_loc q l) e n) as [[Hn E]|[Hn [Em Ee]]];
      try (rewrite shr_m_of_loc; exact Hq).
    - rewrite E1 in E. injection E as -> ->. rewrite shr_m_of_loc.
      split; [|exact He]. split; [exact Hq|].
      apply Z.lt_le_trans with (1 := Hup). apply Z.pow_le_mono_r; lia.
    - rewrite E1 in Em, Ee. simpl in Em, Ee. rewrite shr_m_of_loc in Em.
      rewrite Em. split; [|lia]. split.
      + apply Z.div_pos; [exact Hq | apply Z.pow_pos_nonneg; lia].
      + apply Z.div_lt_upper_bound; [apply Z.pow_pos_nonneg; lia|].
        rewrite <- Z.pow_add_r by lia.
        apply Z.lt_le_trans with (1 := Hup). apply Z.pow_le_mono_r; lia. }
  set (m2 := round_nearest_even (shr_m r1) (loc_of_shr_record r1)).
  pose proof (round_nearest_even_bounds (shr_m r1) (loc_of_shr_record r1)) as Hm2.
  fold m2 in Hm2. rewrite fexp_eq.
  assert (0 <= m2 <= 2 ^ 53) as Hm2' by lia.
  assert (Zdigits2 m2 <= 54) as Hd2 by (apply Zdigits2_le; try lia; change (2^54) with (2 * 2^53); lia).
  set (n2 := Z.max (Zdigits2 m2 + e1 - 53) (-1074) - e1).
  destruct (shr (shr_record_of_loc m2 loc_Exact) e1 n2) as [r2 e2] eqn:E2.
  assert (0 <= shr_m r2 /\ (e2 <= -53 \/ (e2 = -52 /\ shr_m r2 <= 2 ^ 52))) as [Hm3 He3].
  { destruct (shr_spec (shr_record_of_loc m2 loc_Exact) e1 n2) as [[Hn E]|[Hn [Em Ee]]];
      try (simpl; lia).
    - rewrite E2 in E. injection E as -> ->. simpl. split; [lia|left; lia].
    - rewrite E2 in Em, Ee. simpl in Em, Ee. rewrite Em, Ee. split.
      + apply Z.div_pos; [lia | apply Z.pow_pos_nonneg; lia].
      + destruct (Z_le_gt_dec (e1 + n2) (-53)) as [L|G]; [left; exact L|right].
        assert (n2 = 1 /\ e1 = -53) as [-> ->] by lia.
        split; [reflexivity|].
        apply Z.div_le_upper_bound; [lia|]. change (2 ^ 1 * 2 ^ 52) with (2 ^ 53). lia. }
  destruct (shr_m r2) as [|p|p] eqn:E3; try lia; [reflexivity|].
  replace (e2 <=? emax - prec) with true
    by (symmetry; apply Z.leb_le; change (emax - prec) with 971; lia).
  apply SFleb_finite_pos. change (2 ^ 52) with 4503599627370496 in He3. lia.
Qed.

Lemma Zdigits2_lower q : 0 < q -> 2 ^ (Zdigits2 q - 1) <= q.
Proof.
  destruct q as [|p|p]; cbn [Zdigits2]; intros H; try lia.
  rewrite digits2_pos_size.
  pose proof (Pos.size_le p) as G.
  apply Pos2Z.pos_le_pos in G. rewrite Pos2Z.inj_pow in G.
  change (Z.pos p~0) with (2 * Z.pos p) in G.
  assert (2 ^ Z.pos (Pos.size p) = 2 * 2 ^ (Z.pos (Pos.size p) - 1)) as E.
  { rewrite <- Z.pow_succ_r by lia. f_equal. lia. }
  lia.
Qed.

Lemma div_eucl_mul q b : 0 < b -> Z.div_eucl (q * b) b = (q, 0).
Proof.
  intros Hb.
  assert (Z.div_eucl (q * b) b = ((q * b) / b, (q * b) mod b)) as ->
    by (unfold Z.div, Z.modulo; destruct (Z.div_eucl (q * b) b); reflexivity).
  rewrite Z.div_mul, Z.mod_mul by lia. reflexivity.
Qed.

Lemma bounded_canonical m e :
  bounded prec emax m e = true ->
  Z.max (Z.pos (digits2_pos m) + e - 53) (-1074) = e /\ e <= 971.
Proof.
  unfold bounded, canonical_mantissa. rewrite fexp_eq.
  intros H. apply andb_prop in H as [H1 H2].
  apply Z.eqb_eq in H1. apply Z.leb_le in H2. split; [exact H1 | exact H2].
Qed.

(** Rounding an already canonical mantissa changes nothing. *)
Lemma binary_round_aux_canonical s m e :
  bounded prec emax m e = true ->
  binary_round_aux prec emax s (Z.pos m) e loc_Exact = S754_finite s m e.
Proof.
  intros Hb. destruct (bounded_canonical m e Hb) as [Hc He].
  unfold binary_round_aux, shr_fexp. rewrite fexp_eq.
  cbn [Zdigits2]. rewrite Hc, Z.sub_diag.
  cbn [shr shr_record_of_loc shr_m loc_of_shr_record round_nearest_even].
  rewrite fexp_eq. cbn [Zdigits2]. rewrite Hc, Z.sub_diag.
  cbn [shr shr_record_of_loc shr_m].
  replace (e <=? emax - prec) with true
    by (symmetry; apply Z.leb_le; change (emax - prec) with 971; exact He).
  reflexivity.
Qed.

(** A doubled canonical mantissa one exponent lower rounds back exactly. *)
Lemma binary_round_aux_double s m e :
  bounded prec emax m e = true -> -1074 < e ->
  binary_round_aux prec emax s (Z.pos m~0) (e - 1) loc_Exact = S754_finite s m e.
Proof.
  intros Hb Hlo. destruct (bounded_canonical m e Hb) as [Hc He].
  unfold binary_round_aux, shr_fexp. rewrite fexp_eq.
  cbn [Zdigits2 digits2_pos]. rewrite Pos2Z.inj_succ.
  replace (Z.max (Z.succ (Z.pos (digits2_pos m)) + (e - 1) - 53) (-1074) - (e - 1)) with 1 by lia.
  cbn [shr shr_record_of_loc iter_pos shr_1 shr_m loc_of_shr_record round_nearest_even orb].
  rewrite fexp_eq. cbn [Zdigits2].
  replace (Z.max (Z.pos (digits2_pos m) + (e - 1 + 1) - 53) (-1074) - (e - 1 + 1)) with 0 by lia.
  cbn [shr shr_record_of_loc shr_m].
  replace (e - 1 + 1 <=? emax - prec) with true
    by (symmetry; apply Z.leb_le; change (emax - prec) with 971; lia).
  f_equal. lia.
Qed.

Lemma new_location_exact b : new_location b 0 = loc_Exact.
Proof. unfold new_location, new_location_even, new_location_odd. destruct (Z.even b); reflexivity. Qed.

(** The integer quotient [SFdiv] rounds, with the shift written as a
    power of two. *)
Lemma SFdiv_core_shape m1 e1 m2 e2 :
  let e' := Z.min (Z.max (Zdigits2 (Z.pos m1) + e1 - (Zdigits2 (Z.pos m2) + e2) - 53) (-1074)) (e1 - e2) in
  SFdiv_core_binary prec emax (Z.pos m1) e1 (Z.pos m2) e2 =
    ((Z.pos m1 * 2 ^ (e1 - e2 - e')) / Z.pos m2, e',
     new_location (Z.pos m2) ((Z.pos m1 * 2 ^ (e1 - e2 - e')) mod Z.pos m2)).
Proof.
  intros e'. unfold SFdiv_core_binary. rewrite fexp_eq. fold e'.
  assert (0 <= e1 - e2 - e') as Hs by (subst e'; lia).
  set (s := e1 - e2 - e') in *.
  assert (match s with Z.pos _ => Z.shiftl (Z.pos m1) s | 0 => Z.pos m1 | Z.neg _ => 0 end
          = Z.pos m1 * 2 ^ s) as ->.
  { destruct s as [|p|p]; try lia.
    rewrite Z.shiftl_mul_pow2 by lia. reflexivity. }
  unfold Z.div, Z.modulo.
  destruct (Z.div_eucl (Z.pos m1 * 2 ^ s) (Z.pos m2)). reflexivity.
Qed.

(** *** Three facts about division *)

Lemma SFdiv_self s m e :
  SFdiv prec emax (S754_finite s m e) (S754_finite s m e) = sf_one.
Proof.
  unfold SFdiv. rewrite SFdiv_core_shape.
  replace (Zdigits2 (Z.pos m) + e - (Zdigits2 (Z.pos m) + e) - 53) with (-53) by lia.
  replace (e - e) with 0 by lia.
  change (Z.min (Z.max (-53) (-1074)) 0) with (-53).
  change (0 - -53) with 53.
  rewrite Z.mul_comm, Z.div_mul, Z.mod_mul by lia.
  rewrite new_location_exact, xorb_nilpotent.
  vm_compute. reflexivity.
Qed.

Lemma SFdiv_one s m e :
  bounded prec emax m e = true ->
  SFdiv prec emax (S754_finite s m e) sf_one = S754_finite s m e.
Proof.
  intros Hb. destruct (bounded_canonical m e Hb) as [Hc He].
  unfold SFdiv, sf_one. rewrite SFdiv_core_shape.
  change (Zdigits2 4503599627370496) with 53.
  rewrite xorb_false_r.
  cbn [Zdigits2] in *.
  set (d := Z.pos (digits2_pos m)) in *.
  destruct (Z.eq_dec e (-1074)) as [E|E].
  - replace (Z.min (Z.max (d + e - (53 + -52) - 53) (-1074)) (e - -52)) with e by lia.
    replace (e - -52 - e) with 52 by lia.
    change (2 ^ 52) with 4503599627370496.
    rewrite Z.div_mul, Z.mod_mul by lia. rewrite new_location_exact.
    apply binary_round_aux_canonical. exact Hb.
  - replace (Z.min (Z.max (d + e - (53 + -52) - 53) (-1074)) (e - -52)) with (e - 1) by lia.
    replace (e - -52 - (e - 1)) with 53 by lia.
    change (2 ^ 53) with (2 * 4503599627370496).
    rewrite Z.mul_assoc, Z.div_mul, Z.mod_mul by lia. rewrite new_location_exact.
    replace (Z.pos m * 2) with (Z.pos m~0) by lia.
    apply binary_round_aux_double; [exact Hb | lia].
Qed.

Lemma SFleb_finite_pos_inv m1 e1 m2 e2 :
  SFleb (S754_finite false m1 e1) (S754_finite false m2 e2) = true ->
  e1 < e2 \/ (e1 = e2 /\ Z.pos m1 <= Z.pos m2).
Proof.
  unfold SFleb, SFcompare.
  destruct (Z.compare_spec e1 e2); try lia; try discriminate.
  rewrite Pos.compare_cont_spec. cbn [Pos.switch_Eq].
  destruct (Pos.compare_spec m1 m2); try discriminate; intros _; right; split; lia.
Qed.

Lemma shr_nonneg r e n : 0 <= shr_m r -> 0 <= shr_m (fst (shr r e n)).
Proof.
  intros H. destruct (shr_spec r e n H) as [[_ ->]|[Hn [-> _]]]; [exact H|].
  apply Z.div_pos; [exact H | apply Z.pow_pos_nonneg; lia].
Qed.

(** With a negative sign the rounded quotient is below one whatever it is. *)
Lemma binary_round_aux_neg q e l :
  0 <= q -> SFleb (binary_round_aux prec emax true q e l) sf_one = true.
Proof.
  intros Hq. unfold binary_round_aux, shr_fexp.
  set (n := fexp prec emax (Zdigits2 q + e) - e).
  pose proof (shr_nonneg (shr_record_of_loc q l) e n) as H1.
  rewrite shr_m_of_loc in H1. specialize (H1 Hq).
  destruct (shr (shr_record_of_loc q l) e n) as [r1 e1]. cbn [fst] in H1.
  set (m2 := round_nearest_even (shr_m r1) (loc_of_shr_record r1)).
  pose proof (round_nearest_even_bounds (shr_m r1) (loc_of_shr_record r1)) as Hm2.
  fold m2 in Hm2.
  set (n2 := fexp prec emax (Zdigits2 m2 + e1) - e1).
  pose proof (shr_nonneg (shr_record_of_loc m2 loc_Exact) e1 n2) as H2.
  cbn [shr_record_of_loc shr_m] in H2. specialize (H2 ltac:(lia)).
  cbn [shr_record_of_loc].
  destruct (shr {| shr_m := m2; shr_r := false; shr_s := false |} e1 n2) as [r2 e2].
  cbn [fst] in H2.
  destruct (shr_m r2) as [|p|p]; try lia; [reflexivity|].
  destruct (e2 <=? emax - prec); reflexivity.
Qed.

(** For a positive finite [y] and any [x <= y], the rounded quotient
    [x / y] is at most one. *)
Lemma SFdiv_le_one x my ey :
  valid_binary x = true -> bounded prec emax my ey = true ->
  SFleb x (S754_finite false my ey) = true ->
  SFleb (SFdiv prec emax x (S754_finite false my ey)) sf_one = true.
Proof.
  intros Hx Hy Hle.
  destruct x as [sx|[]| |[] mx ex]; try discriminate Hle.
  - destruct sx; reflexivity.
  - reflexivity.
  - cbn [SFdiv xorb]. rewrite SFdiv_core_shape.
    apply binary_round_aux_neg. apply Z.div_pos; [|lia].
    apply Z.mul_nonneg_nonneg; [lia | apply Z.pow_nonneg; lia].
  - cbn [valid_binary] in Hx.
    destruct (bounded_canonical mx ex Hx) as [Cx _].
    destruct (bounded_canonical my ey Hy) as [Cy _].
    apply SFleb_finite_pos_inv in Hle.
    destruct (Z.eq_dec ex ey) as [Ee|Ne];
      [destruct (Pos.eq_dec mx my) as [Em|Nm]|].
    { subst. rewrite SFdiv_self. apply SFleb_finite_pos. lia. }
    all: cbn [SFdiv xorb]; rewrite SFdiv_core_shape.
    all: pose proof (Zdigits2_upper (Z.pos mx) ltac:(lia)) as Ux.
    all: pose proof (Zdigits2_lower (Z.pos my) ltac:(lia)) as Ly.
    all: cbn [Zdigits2] in *.
    all: set (dx := Z.pos (digits2_pos mx)) in *.
    all: set (dy := Z.pos (digits2_pos my)) in *.
    all: assert (ex <= ey /\ dx + ex <= dy + ey /\ Z.pos mx < Z.pos my * 2 ^ (ey - ex))
           as (H1 & H3 & H2).
    { subst ey. rewrite Z.sub_diag, Z.pow_0_r.
      assert (Z.pos mx < Z.pos my) as Hlt by (assert (Z.pos mx <> Z.pos my) by congruence; lia).
      repeat split; try lia.
      assert (dx <= dy); [|lia].
      change dx with (Zdigits2 (Z.pos mx)). apply Zdigits2_le; try lia.
      pose proof (Zdigits2_upper (Z.pos my) ltac:(lia)) as Uy. cbn [Zdigits2] in Uy.
      fold dy in Uy. lia. }
    2: { assert (ex < ey) as Hlt by lia.
      assert (dy = 53) as Edy by lia. assert (dx <= 53) by lia.
      repeat split; try lia.
      rewrite Edy in Ly. change (2 ^ (53 - 1)) with 4503599627370496 in Ly.
      assert (2 ^ dx <= 2 ^ 53) by (apply Z.pow_le_mono_r; lia).
      assert (2 ^ 1 <= 2 ^ (ey - ex)) by (apply Z.pow_le_mono_r; lia).
      change (2 ^ 53) with 9007199254740992 in *. change (2 ^ 1) with 2 in *.
      nia. }
    all: set (e' := Z.min (Z.max (dx + ex - (dy + ey) - 53) (-1074)) (ex - ey)).
    all: assert (0 <= ex - ey - e') as Hs by (subst e'; lia).
    all: assert (0 < 2 ^ (ex - ey - e')) as Hp by (apply Z.pow_pos_nonneg; lia).
    all: apply binary_round_aux_le_one;
      [ apply Z.div_pos; nia
      | apply Z.div_lt_upper_bound; [lia|];
        replace (- e') with ((ey - ex) + (ex - ey - e')) by lia;
        rewrite Z.pow_add_r by lia; nia
      | subst e'; lia ].
Qed.

(** *** Primitive floats, through the axioms that tie them to [SpecFloat] *)

Lemma Prim2SF_one : Prim2SF 1%float = sf_one.
Proof. reflexivity. Qed.

Lemma Prim2SF_zero : Prim2SF 0%float = S754_zero false.
Proof. reflexivity. Qed.

Lemma Prim2SF_infinity : Prim2SF infinity = S754_infinity false.
Proof. reflexivity. Qed.

Lemma is_nan_iff x : is_nan x = true <-> Prim2SF x = S754_nan.
Proof.
  unfold is_nan. rewrite eqb_spec. unfold SFeqb.
  destruct (Prim2SF x) as [[]|[]| |[] m e] eqn:E; cbn [SFcompare negb];
    try (split; [discriminate|discriminate]); try (split; reflexivity).
  all: rewrite Z.compare_refl, Pos.compare_cont_refl; cbn [CompOpp negb];
    split; discriminate.
Qed.

Lemma is_nan_false_iff x : is_nan x = false <-> Prim2SF x <> S754_nan.
Proof.
  rewrite <- is_nan_iff. destruct (is_nan x); split; congruence.
Qed.

Lemma leb_trans x y z : (x <=? y)%float = true -> (y <=? z)%float = true -> (x <=? z)%float = true.
Proof. rewrite !leb_spec. apply SFleb_trans. Qed.

Lemma leb_total x y : is_nan x = false -> is_nan y = false ->
  (x <=? y)%float = true \/ (y <=? x)%float = true.
Proof. rewrite !leb_spec, !is_nan_false_iff. apply SFleb_total. Qed.

Lemma leb_refl x : is_nan x = false -> (x <=? x)%float = true.
Proof. rewrite leb_spec, is_nan_false_iff. apply SFleb_refl. Qed.

Lemma leb_not_nan x y : (x <=? y)%float = true -> is_nan x = false /\ is_nan y = false.
Proof. rewrite leb_spec, !is_nan_false_iff. apply SFleb_not_nan. Qed.

Lemma leb_false_nan_l x y : is_nan x = true -> (x <=? y)%float = false.
Proof.
  intros H. destruct (x <=? y)%float eqn:E; [|reflexivity].
  apply leb_not_nan in E. destruct E; congruence.
Qed.

Lemma pos_finite_spec x :
  pos_finite x = true <-> exists m e, Prim2SF x = S754_finite false m e.
Proof.
  unfold pos_finite. rewrite !ltb_spec, Prim2SF_zero, Prim2SF_infinity.
  unfold SFltb. split.
  - intros H. apply andb_prop in H as [H1 H2].
    destruct (Prim2SF x) as [[]|[]| |[] m e]; try discriminate. eauto.
  - intros (m & e & ->). reflexivity.
Qed.

Lemma leb_one_antisym x : (x <=? 1)%float = true -> (1 <=? x)%float = true -> x = 1%float.
Proof.
  rewrite !leb_spec, Prim2SF_one. intros H1 H2.
  apply Prim2SF_inj. rewrite Prim2SF_one.
  destruct (Prim2SF x) as [[]|[]| |[] m e]; try discriminate.
  apply SFleb_finite_pos_inv in H1, H2.
  unfold sf_one. f_equal; lia.
Qed.

Lemma div_self x : pos_finite x = true -> (x / x)%float = 1%float.
Proof.
  intros H. apply pos_finite_spec in H as (m & e & E).
  apply Prim2SF_inj. rewrite div_spec, E, Prim2SF_one. apply SFdiv_self.
Qed.

Lemma div_one x : (x / 1)%float = x.
Proof.
  apply Prim2SF_inj. rewrite div_spec, Prim2SF_one.
  pose proof (Prim2SF_valid x) as V.
  destruct (Prim2SF x) as [s|s| |s m e]; cbn [valid_binary] in V.
  - cbn. rewrite xorb_false_r. reflexivity.
  - cbn. rewrite xorb_false_r. reflexivity.
  - reflexivity.
  - apply SFdiv_one. exact V.
Qed.

Lemma div_le_one x y :
  pos_finite y = true -> (x <=? y)%float = true -> (x / y <=? 1)%float = true.
Proof.
  intros Hy Hle. apply pos_finite_spec in Hy as (m & e & E).
  rewrite leb_spec in *. rewrite div_spec, Prim2SF_one. rewrite E in *.
  apply SFdiv_le_one; [apply Prim2SF_valid | | exact Hle].
  pose proof (Prim2SF_valid y) as V. rewrite E in V. exact V.
Qed.

Lemma is_zero_iff x : is_zero x = true <-> exists s, Prim2SF x = S754_zero s.
Proof.
  unfold is_zero. rewrite eqb_spec. change (Prim2SF zero) with (S754_zero false).
  unfold SFeqb. split.
  - destruct (Prim2SF x) as [s|[]| |[] m e]; try discriminate. eauto.
  - intros [s ->]. reflexivity.
Qed.

Lemma is_infinity_iff x : is_infinity x = true <-> exists s, Prim2SF x = S754_infinity s.
Proof.
  unfold is_infinity. rewrite eqb_spec, abs_spec, Prim2SF_infinity.
  unfold SFeqb. split.
  - destruct (Prim2SF x) as [s|s| |s m e]; try discriminate. eauto.
  - intros [s ->]. reflexivity.
Qed.

(** Dividing by a zero never gives a finite number: 0/0 and nan/0 are nan,
    anything else over zero is an infinity. *)
Lemma div_zero_not_finite x d : is_zero d = true -> is_finite (x / d)%float = false.
Proof.
  intros H. apply is_zero_iff in H as [s E].
  unfold is_finite.
  assert (Prim2SF (x / d)%float = S754_nan \/ exists t, Prim2SF (x / d)%float = S754_infinity t) as [N|I].
  { rewrite div_spec, E. destruct (Prim2SF x) as [sx|sx| |sx m e]; cbn; eauto. }
  - apply is_nan_iff in N. rewrite N. reflexivity.
  - apply is_infinity_iff in I. rewrite I, orb_true_r. reflexivity.
Qed.

(** Over a zero, a zero gives nan and any other number an infinity. *)
Lemma div_zero_cases x d :
  is_zero d = true -> is_nan x = false ->
  (is_zero x = true -> is_nan (x / d)%float = true) /\
  (is_zero x = false -> is_infinity (x / d)%float = true).
Proof.
  intros H Hx. apply is_zero_iff in H as [s E]. apply is_nan_false_iff in Hx.
  split; intros Hz.
  - apply is_zero_iff in Hz as [t Ex]. apply is_nan_iff.
    rewrite div_spec, E, Ex. reflexivity.
  - apply is_infinity_iff. rewrite div_spec, E.
    destruct (Prim2SF x) as [sx|sx| |sx m e] eqn:Ex; cbn; eauto.
    + assert (is_zero x = true) as Z by (apply is_zero_iff; eauto).
      rewrite Z in Hz. discriminate Hz.
    + contradiction.
Qed.

End Binary64.

(** A positive finite number is determined by the order. *)
Lemma leb_antisym_pos x y :
  pos_finite y = true -> (x <=? y)%float = true -> (y <=? x)%float = true -> x = y.
Proof.
  intros Hy H1 H2. apply pos_finite_spec in Hy as (m & e & E).
  rewrite leb_spec in H1, H2. apply Prim2SF_inj. rewrite E in *.
  destruct (Prim2SF x) as [[]|[]| |[] mx ex]; try discriminate.
  apply SFleb_finite_pos_inv in H1, H2.
  f_equal; lia.
Qed.

(** A number between a zero and that zero is a zero. *)
Lemma leb_antisym_zero z d :
  is_zero z = true -> (z <=? d)%float = true -> (d <=? z)%float = true -> is_zero d = true.
Proof.
  rewrite !is_zero_iff, !leb_spec. intros [s ->].
  destruct (Prim2SF d) as [t|[]| |[] m e]; try discriminate; eauto.
Qed.

(** ** Lists *)

Lemma zip_with_length {A B C} (f : A -> B -> C) xs : forall ys,
  length (zip_with f xs ys) = Nat.min (length xs) (length ys).
Proof.
  induction xs as [|x xs IH]; intros [|y ys]; simpl; try reflexivity.
  rewrite IH. reflexivity.
Qed.

Lemma nth_zip_with {A B C} (f : A -> B -> C) dA dB dC xs : forall ys j,
  j < length xs -> j < length ys ->
  nth j (zip_with f xs ys) dC = f (nth j xs dA) (nth j ys dB).
Proof.
  induction xs as [|x xs IH]; intros [|y ys] [|j]; simpl; intros H1 H2; try lia.
  - reflexivity.
  - apply IH; lia.
Qed.

Lemma descending_firstn n : forall v, descending v = true -> descending (firstn n v) = true.
Proof.
  induction n as [|n IH]; intros v H; [reflexivity|].
  destruct v as [|a [|b t]]; try reflexivity.
  - destruct n; reflexivity.
  - cbn [descending] in H. apply andb_prop in H as [H1 H2].
    specialize (IH (b :: t) H2).
    destruct n as [|n']; [reflexivity|].
    change (firstn (S (S n')) (a :: b :: t)) with (a :: firstn (S n') (b :: t)).
    change (firstn (S n') (b :: t)) with (b :: firstn n' t) in *.
    cbn [descending]. rewrite H1. exact IH.
Qed.

(** ** The column maximum *)

Lemma fmaximum_nan_l a b : is_nan a = true -> fmaximum a b = a.
Proof. unfold fmaximum. intros ->. rewrite orb_true_r. reflexivity. Qed.

Lemma fmaximum_nan_r a b : is_nan a = false -> is_nan b = true -> fmaximum a b = b.
Proof.
  unfold fmaximum. intros Ha Hb. rewrite Ha, (leb_false_nan_l b a Hb). reflexivity.
Qed.

(** Without nan, [fmaximum] picks one of its arguments, above both. *)
Lemma fmaximum_upper a b :
  is_nan a = false -> is_nan b = false ->
  (fmaximum a b = a \/ fmaximum a b = b) /\
  (a <=? fmaximum a b)%float = true /\ (b <=? fmaximum a b)%float = true.
Proof.
  intros Ha Hb. unfold fmaximum. rewrite Ha, orb_false_r.
  destruct (b <=? a)%float eqn:E.
  - repeat split; auto using leb_refl.
  - repeat split; auto using leb_refl.
    destruct (leb_total a b Ha Hb) as [L|L]; [exact L|congruence].
Qed.

Lemma fold_max_nan l : forall a, is_nan a = true -> fold_left fmaximum l a = a.
Proof.
  induction l as [|x l IH]; intros a Ha; [reflexivity|].
  cbn [fold_left]. rewrite (fmaximum_nan_l a x Ha). apply IH. exact Ha.
Qed.

Lemma fold_max_exists_nan l : forall a,
  Exists (fun x => is_nan x = true) (a :: l) -> is_nan (fold_left fmaximum l a) = true.
Proof.
  induction l as [|x l IH]; intros a H.
  - inversion H as [? ? Ha|? ? Hl]; subst; [exact Ha|inversion Hl].
  - cbn [fold_left]. destruct (is_nan a) eqn:Ha.
    + rewrite fold_max_nan; rewrite (fmaximum_nan_l a x Ha); exact Ha.
    + apply IH. inversion H as [? ? Ha'|? ? Hl]; subst; [congruence|].
      inversion Hl as [? ? Hx|? ? Hl']; subst.
      * left. rewrite (fmaximum_nan_r a x Ha Hx). exact Hx.
      * right. exact Hl'.
Qed.

Lemma fold_max_upper l : forall a,
  Forall (fun x => is_nan x = false) (a :: l) ->
  In (fold_left fmaximum l a) (a :: l) /\
  Forall (fun x => (x <=? fold_left fmaximum l a)%float = true) (a :: l).
Proof.
  induction l as [|x l IH]; intros a H.
  - inversion H; subst. split; [left; reflexivity|].
    constructor; [apply leb_refl; assumption|constructor].
  - inversion H as [|? ? Ha Hl]; subst. inversion Hl as [|? ? Hx Hl']; subst.
    destruct (fmaximum_upper a x Ha Hx) as (Hpick & Hua & Hux).
    assert (is_nan (fmaximum a x) = false) as Hm by (destruct Hpick as [->| ->]; assumption).
    destruct (IH (fmaximum a x) (Forall_cons _ Hm Hl')) as [Hin Hall].
    cbn [fold_left]. inversion Hall as [|? ? Hd Hall']; subst. split.
    + destruct Hin as [Hin|Hin].
      * rewrite <- Hin. destruct Hpick as [->| ->]; [left|right; left]; reflexivity.
      * right; right; exact Hin.
    + constructor; [eapply leb_trans; eassumption|].
      constructor; [eapply leb_trans; eassumption|exact Hall'].
Qed.

(** The fold of [np.maximum] over a nonempty column is its maximum. *)
Lemma fold_max_column_max a l : column_max (a :: l) (fold_left fmaximum l a).
Proof.
  split; [apply fold_max_exists_nan | apply fold_max_upper].
Qed.

(** Two maxima of a column agree in the order; a nan maximum is shared. *)
Lemma column_max_agree c d d' :
  column_max c d -> column_max c d' -> is_nan d = false ->
  In d c /\ Forall (fun x => (x <=? d)%float = true) c /\
  (d <=? d')%float = true /\ (d' <=? d)%float = true.
Proof.
  intros [N1 U1] [N2 U2] Hd.
  assert (Forall (fun x => is_nan x = false) c) as Hc.
  { apply Forall_forall. intros x Hx. destruct (is_nan x) eqn:E; [|reflexivity].
    rewrite N1 in Hd; [discriminate|]. apply Exists_exists. eauto. }
  destruct (U1 Hc) as [I1 A1]. destruct (U2 Hc) as [I2 A2].
  rewrite Forall_forall in A1, A2. repeat split; auto.
  apply Forall_forall. exact A1.
Qed.

(** ** [normalize_columns] *)

Lemma fold_zip_max_length n rs : forall r,
  length r = n -> Forall (fun x => length x = n) rs ->
  length (fold_left (zip_with fmaximum) rs r) = n.
Proof.
  induction rs as [|x rs IH]; intros r Hr H; [exact Hr|].
  inversion H as [|? ? Hx Hrs]; subst. cbn [fold_left]. apply IH; [|exact Hrs].
  rewrite zip_with_length, Hx. apply Nat.min_id.
Qed.

(** Folding the rows into one computes, in each column, the fold of that
    column. *)
Lemma fold_zip_max_nth n j rs : forall r,
  length r = n -> Forall (fun x => length x = n) rs -> j < n ->
  nth j (fold_left (zip_with fmaximum) rs r) nan =
  fold_left fmaximum (map (fun x => nth j x nan) rs) (nth j r nan).
Proof.
  induction rs as [|x rs IH]; intros r Hr H Hj; [reflexivity|].
  inversion H as [|? ? Hx Hrs]; subst. cbn [fold_left map].
  rewrite IH; [|rewrite zip_with_length, Hx; apply Nat.min_id|exact Hrs|exact Hj].
  rewrite (nth_zip_with fmaximum nan nan) by lia. reflexivity.
Qed.

Lemma amax0_spec X :
  wf X -> 1 <= nrows X ->
  exists v, amax0 X = Ok v /\ length v = ncols X /\
    forall j, j < ncols X -> column_max (column X j) (nth j v nan).
Proof.
  unfold wf, nrows, amax0, column. destruct X as [n rs]; cbn [rows ncols].
  intros H Hm. destruct rs as [|r rs]; [simpl in Hm; lia|].
  inversion H as [|? ? Hr Hrs]; subst.
  eexists; split; [reflexivity|]. split.
  - apply fold_zip_max_length; [reflexivity|exact Hrs].
  - intros j Hj. rewrite (fold_zip_max_nth (length r)) by auto.
    cbn [map]. apply fold_max_column_max.
Qed.

Lemma amax0_empty X : nrows X = 0 -> amax0 X = Raise ValueError.
Proof.
  unfold nrows, amax0. destruct (rows X); [reflexivity|discriminate].
Qed.

Lemma divide_rows_wf X v : wf X -> length v = ncols X -> wf (divide_rows X v).
Proof.
  unfold wf, divide_rows. cbn [rows ncols]. intros H Hv.
  apply Forall_map. eapply Forall_impl; [|exact H].
  intros r Hr. cbn beta. rewrite zip_with_length, Hr, Hv. apply Nat.min_id.
Qed.

Lemma divide_rows_shape X v : shape (divide_rows X v) = shape X.
Proof. unfold shape, nrows, divide_rows. cbn [rows ncols]. rewrite length_map. reflexivity. Qed.

Lemma nth_row_length X i : wf X -> i < nrows X -> length (nth i (rows X) []) = ncols X.
Proof.
  unfold wf, nrows. intros H Hi. rewrite Forall_forall in H.
  apply H. apply nth_In. exact Hi.
Qed.

Lemma entry_divide_rows X v i j :
  wf X -> length v = ncols X -> i < nrows X -> j < ncols X ->
  entry (divide_rows X v) i j = (entry X i j / nth j v nan)%float.
Proof.
  intros H Hv Hi Hj. unfold entry, divide_rows. cbn [rows].
  change (@nil float) with ((fun r => zip_with PrimFloat.div r v) []) at 1.
  rewrite map_nth.
  apply nth_zip_with; [rewrite nth_row_length by assumption; exact Hj | lia].
Qed.

Lemma column_divide_rows X v j :
  wf X -> length v = ncols X -> j < ncols X ->
  column (divide_rows X v) j = map (fun x => (x / nth j v nan)%float) (column X j).
Proof.
  unfold wf, column, divide_rows. cbn [rows]. intros H Hv Hj.
  rewrite !map_map. apply map_ext_in. intros r Hr.
  rewrite Forall_forall in H. specialize (H r Hr).
  apply nth_zip_with; lia.
Qed.

Lemma column_length X j : length (column X j) = nrows X.
Proof. unfold column, nrows. apply length_map. Qed.

(** What [normalize_columns] computes on an array with at least one row:
    the vector of column maxima, and every entry divided by the maximum of
    its column. *)
Lemma normalize_columns_spec X :
  wf X -> 1 <= nrows X ->
  exists v, length v = ncols X /\
    (forall j, j < ncols X -> column_max (column X j) (nth j v nan)) /\
    normalize_columns X = Ok (divide_rows X v).
Proof.
  intros H Hm. destruct (amax0_spec X H Hm) as (v & E & Hv & Hmax).
  exists v. unfold normalize_columns. rewrite E. auto.
Qed.

Lemma normalize_columns_empty X : nrows X = 0 -> normalize_columns X = Raise ValueError.
Proof. intros H. unfold normalize_columns. rewrite (amax0_empty X H). reflexivity. Qed.

Lemma zip_with_div_ones r : forall n, length r = n -> zip_with PrimFloat.div r (repeat 1%float n) = r.
Proof.
  induction r as [|x r IH]; intros n Hn; [destruct n; reflexivity|].
  destruct n as [|n]; [discriminate|]. cbn [repeat zip_with].
  rewrite div_one, IH by (simpl in Hn; lia). reflexivity.
Qed.

Lemma divide_rows_ones X : wf X -> divide_rows X (repeat 1%float (ncols X)) = X.
Proof.
  unfold wf, divide_rows. destruct X as [n rs]; cbn [rows ncols]. intros H.
  f_equal. rewrite <- (map_id rs) at 2. apply map_ext_in. intros r Hr.
  rewrite Forall_forall in H. apply zip_with_div_ones. apply H. exact Hr.
Qed.

Lemma pos_finite_not_nan d : pos_finite d = true -> is_nan d = false.
Proof.
  intros H. apply pos_finite_spec in H as (m & e & E).
  apply is_nan_false_iff. rewrite E. discriminate.
Qed.

Lemma is_zero_not_nan d : is_zero d = true -> is_nan d = false.
Proof.
  intros H. apply is_zero_iff in H as [s E].
  apply is_nan_false_iff. rewrite E. discriminate.
Qed.

(** The computed maximum of a column whose maximum is positive and finite
    is that number, bit for bit. *)
Lemma column_max_unique_pos c d d' :
  column_max c d -> column_max c d' -> pos_finite d = true -> d' = d.
Proof.
  intros H H' Hd.
  destruct (column_max_agree c d d' H H' (pos_finite_not_nan d Hd)) as (_ & _ & L1 & L2).
  apply leb_antisym_pos; assumption.
Qed.

Lemma normalize_columns_quotient X :
  wf X -> 1 <= nrows X ->
  exists Y v, normalize_columns X = Ok Y /\ quotient_by X Y v.
Proof.
  intros H Hm. destruct (normalize_columns_spec X H Hm) as (v & Hv & Hmax & E).
  exists (divide_rows X v), v. split; [exact E|].
  split; [apply divide_rows_wf; assumption|].
  split; [apply divide_rows_shape|]. split; [split; assumption|].
  intros i j Hi Hj. apply entry_divide_rows; assumption.
Qed.

(** A column with a maximum that is not nan has an entry and holds no
    nan. *)
Lemma column_max_not_nan X j d :
  column_max (column X j) d -> is_nan d = false ->
  1 <= nrows X /\ forall i, i < nrows X -> is_nan (entry X i j) = false.
Proof.
  intros Hd Hn.
  destruct (column_max_agree _ _ _ Hd Hd Hn) as (Hin & Hall & _).
  split.
  - rewrite <- (column_length X j). destruct (column X j); [destruct Hin|simpl; lia].
  - intros i Hi. rewrite Forall_forall in Hall.
    assert (In (entry X i j) (column X j)) as Hx.
    { unfold column, entry.
      rewrite <- (map_nth (fun r => nth j r nan)).
      rewrite (nth_indep _ _ nan) by (rewrite length_map; exact Hi).
      apply nth_In. rewrite length_map. exact Hi. }
    exact (proj1 (leb_not_nan _ _ (Hall _ Hx))).
Qed.

(** ** Claims about [normalize_columns] *)

(** C4, as amended. For every array X with at least one row,
    [normalize_columns X] returns an array of the same shape in which
    each entry of column j is the entry of X divided by the maximum entry
    of column j: the largest entry in the order of the numbers, not the
    entry of largest absolute value (and nan when the column holds a
    nan). *)
Theorem normalize_columns_divides_by_column_max X :
  wf X -> 1 <= nrows X ->
  exists Y v, normalize_columns X = Ok Y /\ wf Y /\ shape Y = shape X /\
    length v = ncols X /\
    forall j, j < ncols X ->
      column_max (column X j) (nth j v nan) /\
      forall i, i < nrows X -> entry Y i j = (entry X i j / nth j v nan)%float.
Proof.
  intros H Hm. destruct (normalize_columns_spec X H Hm) as (v & Hv & Hmax & E).
  exists (divide_rows X v), v.
  split; [exact E|]. split; [apply divide_rows_wf; assumption|].
  split; [apply divide_rows_shape|]. split; [exact Hv|].
  intros j Hj. split; [apply Hmax; exact Hj|].
  intros i Hi. apply entry_divide_rows; assumption.
Qed.

(** The theorem applies to the array of the docstring. *)
Lemma normalize_columns_divides_by_column_max_witness :
  wf X_doc /\ 1 <= nrows X_doc /\
  exists Y v, normalize_columns X_doc = Ok Y /\ wf Y /\ shape Y = shape X_doc /\
    length v = ncols X_doc /\
    forall j, j < ncols X_doc ->
      column_max (column X_doc j) (nth j v nan) /\
      forall i, i < nrows X_doc -> entry Y i j = (entry X_doc i j / nth j v nan)%float.
Proof.
  assert (wf X_doc) as H by (repeat constructor).
  assert (1 <= nrows X_doc) as Hm by (vm_compute; lia).
  split; [exact H|]. split; [exact Hm|].
  exact (normalize_columns_divides_by_column_max X_doc H Hm).
Defined.

(** C4 as written fails on a column whose entry of largest magnitude is
    negative: the column (-5, 1) is divided by 1, its maximum, and comes
    back unchanged, where the claim announces a division by -5 (or by 5,
    if "magnitude" is read as the absolute value). *)
Lemma normalize_columns_max_magnitude_counterexample :
  wf X_mixed /\ 1 <= nrows X_mixed /\
  max_magnitude_entry (column X_mixed 0) = (-5)%float /\
  exists Y, normalize_columns X_mixed = Ok Y /\
    entry Y 0 0 = (-5)%float /\
    entry Y 0 0 <> (entry X_mixed 0 0 / max_magnitude_entry (column X_mixed 0))%float /\
    entry Y 0 0 <> (entry X_mixed 0 0 / abs (max_magnitude_entry (column X_mixed 0)))%float.
Proof.
  split; [repeat constructor|]. split; [vm_compute; lia|]. split; [reflexivity|].
  eexists. split; [reflexivity|]. split; [reflexivity|].
  split; intros E; apply (f_equal Prim2SF) in E; vm_compute in E; discriminate E.
Qed.

(** The docstring's example, evaluated. *)
Example normalize_columns_docstring :
  normalize_columns X_doc =
  Ok (mkarr 3 [[1; 1; 1]; [0.765; 0.5; 0.7]; [0.8; 0.7; 0.18]]%float).
Proof. reflexivity. Qed.

(** C7, as amended. For every array X with at least one row in which
    the maximum of every column is positive and finite, normalizing twice
    gives what normalizing once gives, because every column maximum is 1
    after the first pass. *)
Theorem normalize_columns_idempotent X :
  wf X -> 1 <= nrows X ->
  (forall j, j < ncols X -> exists d, column_max (column X j) d /\ pos_finite d = true) ->
  exists Y, normalize_columns X = Ok Y /\
    (forall j, j < ncols Y -> column_max (column Y j) 1%float) /\
    normalize_columns Y = Ok Y.
Proof.
  intros H Hm Hpos.
  destruct (normalize_columns_spec X H Hm) as (v & Hv & Hmax & E).
  set (Y := divide_rows X v) in *.
  assert (wf Y) as HY by (apply divide_rows_wf; assumption).
  assert (shape Y = shape X) as HsY by apply divide_rows_shape.
  assert (nrows Y = nrows X /\ ncols Y = ncols X) as [HrY HcY]
    by (unfold shape in HsY; injection HsY; auto).
  destruct (normalize_columns_spec Y HY ltac:(lia)) as (w & Hw & Hmaxw & E').
  assert (forall j, j < ncols X -> nth j w nan = 1%float) as Hone.
  { intros j Hj.
    destruct (Hpos j Hj) as (d & Hd & Hpd).
    pose proof (column_max_unique_pos _ _ _ Hd (Hmax j Hj) Hpd) as Ev.
    destruct (column_max_agree _ _ _ Hd Hd (pos_finite_not_nan d Hpd)) as (Hin & Hall & _).
    rewrite Forall_forall in Hall.
    specialize (Hmaxw j ltac:(lia)).
    unfold Y in Hmaxw. rewrite column_divide_rows in Hmaxw by assumption.
    rewrite Ev in Hmaxw. destruct Hmaxw as [_ Hup].
    destruct Hup as [Hin' Hall'].
    { apply Forall_forall. intros y Hy. apply in_map_iff in Hy as (x & <- & Hx).
      exact (proj1 (leb_not_nan _ _ (div_le_one x d Hpd (Hall x Hx)))). }
    rewrite Forall_forall in Hall'.
    apply leb_one_antisym.
    - apply in_map_iff in Hin' as (x & <- & Hx).
      apply div_le_one; [exact Hpd|]. apply Hall. exact Hx.
    - rewrite <- (div_self d Hpd). apply Hall'.
      apply in_map_iff. exists d. split; [reflexivity|exact Hin]. }
  assert (w = repeat 1%float (ncols Y)) as Ew.
  { apply (nth_ext _ _ nan nan); [rewrite repeat_length; exact Hw|].
    intros j Hj. rewrite Hone by lia. symmetry. apply nth_repeat_lt. lia. }
  exists Y. split; [exact E|]. split.
  - intros j Hj. rewrite <- (Hone j) by lia. apply Hmaxw. exact Hj.
  - rewrite E', Ew, divide_rows_ones by exact HY. reflexivity.
Qed.

(** The theorem applies to the array of the docstring, whose column
    maxima are 1000, 10 and 0.5. *)
Lemma normalize_columns_idempotent_witness :
  exists Y, normalize_columns X_doc = Ok Y /\
    (forall j, j < ncols Y -> column_max (column Y j) 1%float) /\
    normalize_columns Y = Ok Y.
Proof.
  apply normalize_columns_idempotent.
  - repeat constructor.
  - vm_compute. lia.
  - intros j Hj.
    destruct (amax0_spec X_doc ltac:(repeat constructor) ltac:(vm_compute; lia))
      as (v & Ev & _ & Hmax).
    exists (nth j v nan). split; [apply Hmax; exact Hj|].
    injection Ev as <-.
    change (ncols X_doc) with 3 in Hj.
    destruct j as [|[|[|j]]]; [reflexivity..|lia].
Defined.

(** C7 as written fails on a column whose maximum is not positive. With
    a negative maximum the column (-2, -4) becomes (1, 2) and then
    (0.5, 1). With a zero maximum the column (0, -1) becomes
    (nan, -infinity) and then (nan, nan). *)
Lemma normalize_columns_idempotent_counterexample :
  (wf X_neg /\ 1 <= nrows X_neg /\
   exists Y Z, normalize_columns X_neg = Ok Y /\ normalize_columns Y = Ok Z /\
     Y = mkarr 1 [[1]; [2]]%float /\ Z = mkarr 1 [[0.5]; [1]]%float /\ Z <> Y) /\
  (wf X_zero /\ 1 <= nrows X_zero /\
   exists Y Z, normalize_columns X_zero = Ok Y /\ normalize_columns Y = Ok Z /\
     entry Y 1 1 = neg_infinity /\ entry Z 1 1 = nan /\ Z <> Y).
Proof.
  split.
  - split; [repeat constructor|]. split; [vm_compute; lia|].
    do 2 eexists. split; [reflexivity|]. split; [reflexivity|].
    split; [reflexivity|]. split; [reflexivity|].
    intros E. apply (f_equal (fun M => Prim2SF (entry M 0 0))) in E.
    vm_compute in E. discriminate E.
  - split; [repeat constructor|]. split; [vm_compute; lia|].
    do 2 eexists. split; [reflexivity|]. split; [reflexivity|].
    split; [reflexivity|]. split; [reflexivity|].
    intros E. apply (f_equal (fun M => Prim2SF (entry M 1 1))) in E.
    vm_compute in E. discriminate E.
Qed.

(** C8. For every array X with a column j whose maximum entry is zero,
    [normalize_columns X] raises nothing: it returns an array Y of the
    shape of X, each entry of which is the entry of X over the maximum of
    its column. In column j that divisor is a zero and every entry of Y is
    not finite: nan where X holds a zero, an infinity elsewhere; the
    column has at least one entry. The same holds of the quotients by
    every vector of column maxima, whichever of the two zeros [np.max]
    returns when the column holds both. *)
Theorem normalize_columns_zero_max X j d :
  wf X -> j < ncols X -> column_max (column X j) d -> is_zero d = true ->
  1 <= nrows X /\
  (exists Y v, normalize_columns X = Ok Y /\ quotient_by X Y v /\
     is_zero (nth j v nan) = true /\
     forall i, i < nrows X ->
       is_finite (entry Y i j) = false /\
       (is_zero (entry X i j) = true -> is_nan (entry Y i j) = true) /\
       (is_zero (entry X i j) = false -> is_infinity (entry Y i j) = true)) /\
  (forall v, maxima X v ->
     is_zero (nth j v nan) = true /\
     forall i, i < nrows X ->
       is_finite (entry X i j / nth j v nan)%float = false /\
       (is_zero (entry X i j) = true -> is_nan (entry X i j / nth j v nan)%float = true) /\
       (is_zero (entry X i j) = false ->
        is_infinity (entry X i j / nth j v nan)%float = true)).
Proof.
  intros H Hj Hd Hz.
  pose proof (is_zero_not_nan d Hz) as Hn.
  destruct (column_max_not_nan X j d Hd Hn) as [Hm Hx].
  assert (forall v, maxima X v ->
     is_zero (nth j v nan) = true /\
     forall i, i < nrows X ->
       is_finite (entry X i j / nth j v nan)%float = false /\
       (is_zero (entry X i j) = true -> is_nan (entry X i j / nth j v nan)%float = true) /\
       (is_zero (entry X i j) = false ->
        is_infinity (entry X i j / nth j v nan)%float = true)) as Hall.
  { intros v [_ Hmax].
    destruct (column_max_agree _ _ _ Hd (Hmax j Hj) Hn) as (_ & _ & L1 & L2).
    pose proof (leb_antisym_zero _ _ Hz L1 L2) as Hzv.
    split; [exact Hzv|]. intros i Hi.
    split; [apply div_zero_not_finite; exact Hzv|].
    apply div_zero_cases; [exact Hzv|apply Hx; exact Hi]. }
  split; [exact Hm|]. split; [|exact Hall].
  destruct (normalize_columns_quotient X H Hm) as (Y & v & E & HY).
  exists Y, v. split; [exact E|]. split; [exact HY|].
  destruct HY as (_ & _ & Hv & Hq). destruct (Hall v Hv) as [Hzv Hi].
  split; [exact Hzv|]. intros i Hlt. rewrite (Hq i j Hlt Hj). apply Hi. exact Hlt.
Qed.

(** The theorem applies to an array whose second column is (0, -1):
    its entries become nan and minus infinity. *)
Lemma normalize_columns_zero_max_witness :
  exists Y, normalize_columns X_zero = Ok Y /\ wf Y /\ shape Y = shape X_zero /\
    is_nan (entry Y 0 1) = true /\ is_infinity (entry Y 1 1) = true.
Proof.
  destruct (normalize_columns_zero_max X_zero 1 0%float)
    as (_ & (Y & v & E & (WY & SY & _) & _ & Hi) & _).
  - repeat constructor.
  - vm_compute. lia.
  - split.
    + intros Hex. exfalso. apply Exists_exists in Hex as (x & Hx & Hnan).
      destruct Hx as [<-|[<-|[]]]; vm_compute in Hnan; discriminate Hnan.
    + intros _. split; [left; reflexivity|]. repeat constructor.
  - reflexivity.
  - exists Y. split; [exact E|]. split; [exact WY|]. split; [exact SY|].
    split.
    + apply (Hi 0); [vm_compute; lia|reflexivity].
    + apply (Hi 1); [vm_compute; lia|reflexivity].
Defined.

(** ** Shapes of transposes and slices *)

Lemma T_wf X : wf (T X).
Proof.
  unfold wf, T. cbn [rows ncols]. apply Forall_map, Forall_forall.
  intros j _. apply column_length.
Qed.

Lemma T_shape X : shape (T X) = (ncols X, nrows X).
Proof.
  unfold shape, nrows, T. cbn [rows ncols]. rewrite length_map, length_seq. reflexivity.
Qed.

Lemma slice_stop_le k n : slice_stop k n <= n.
Proof. unfold slice_stop. destruct (k <? 0)%Z; lia. Qed.

Lemma slice_stop_nonneg k n : (0 <= k)%Z -> slice_stop k n = Nat.min (Z.to_nat k) n.
Proof.
  intros Hk. unfold slice_stop.
  destruct (Z.ltb_spec k 0); [lia|reflexivity].
Qed.

Lemma take_vec_length k v : length (take_vec k v) = slice_stop k (length v).
Proof.
  unfold take_vec. rewrite length_firstn.
  pose proof (slice_stop_le k (length v)). lia.
Qed.

Lemma take_cols_wf k X : wf X -> wf (take_cols k X).
Proof.
  unfold wf, take_cols. cbn [rows ncols]. intros H.
  apply Forall_map. eapply Forall_impl; [|exact H].
  intros r Hr. cbn beta. rewrite length_firstn, Hr.
  pose proof (slice_stop_le k (ncols X)). lia.
Qed.

Lemma take_cols_shape k X : shape (take_cols k X) = (nrows X, slice_stop k (ncols X)).
Proof. unfold shape, nrows, take_cols. cbn [rows ncols]. rewrite length_map. reflexivity. Qed.

Lemma take_rows_wf k X : wf X -> wf (take_rows k X).
Proof.
  unfold wf, take_rows. cbn [rows ncols]. intros H.
  apply Forall_forall. intros r Hr. rewrite Forall_forall in H.
  apply H. rewrite <- (firstn_skipn (slice_stop k (nrows X)) (rows X)).
  apply in_or_app. left. exact Hr.
Qed.

Lemma take_rows_shape k X : shape (take_rows k X) = (slice_stop k (nrows X), ncols X).
Proof.
  unfold shape, nrows, take_rows. cbn [rows ncols]. rewrite length_firstn.
  fold (nrows X). pose proof (slice_stop_le k (nrows X)). f_equal. lia.
Qed.

Lemma shape_inv X m n : shape X = (m, n) -> nrows X = m /\ ncols X = n.
Proof. unfold shape. intros E. injection E. auto. Qed.

(** ** Running the two stages *)

Section Stages.
Context {N : Numpy}.

Lemma np_random_randn_run n l s :
  (0 <= l)%Z ->
  np_random_randn n l s =
  (Ok (fst (random_randn n (Z.to_nat l) s)), snd (random_randn n (Z.to_nat l) s)).
Proof.
  intros Hl. unfold np_random_randn.
  destruct (Z.ltb_spec l 0); [lia|].
  destruct (random_randn n (Z.to_nat l) s). reflexivity.
Qed.

Lemma find_Q_of_stage_A A l s Omega Y Yn Q R s' :
  (0 <= l)%Z -> stage_A A l s Omega Y Yn Q R s' -> find_Q A l s = (Ok Q, s').
Proof.
  intros Hl (E1 & E2 & E3 & E4).
  unfold find_Q, shape, bind, lift, ret.
  rewrite (np_random_randn_run _ _ _ Hl), E1. cbn [fst snd].
  rewrite E2, E3, E4. reflexivity.
Qed.

Lemma rsvd_of_stages A k l return_Q s Omega Y Yn Q R s' B S Sigma Vt U :
  (0 <= l)%Z ->
  stage_A A l s Omega Y Yn Q R s' -> stage_B A Q B S Sigma Vt U ->
  rsvd A k (Some l) return_Q s = (Ok (returned k return_Q U Sigma Vt Q), s').
Proof.
  intros Hl HA (E1 & E2 & E3).
  unfold rsvd, bind. rewrite (find_Q_of_stage_A _ _ _ _ _ _ _ _ _ Hl HA).
  unfold lift, ret, returned. rewrite E1, E2, E3.
  destruct return_Q; reflexivity.
Qed.

Lemma rsvd_default_l A k return_Q s :
  rsvd A k None return_Q s = rsvd A k (Some (2 * k)%Z) return_Q s.
Proof. reflexivity. Qed.

Context {C : NumpyContract N}.

(** On an array with at least one row and for [l >= 0], Stage A runs to
    its end and the product B = Q^T A is formed, with these shapes, where
    r = min(m, l). *)
Lemma stage_A_runs A l s :
  wf A -> 1 <= nrows A -> (0 <= l)%Z ->
  exists Omega Y Yn Q R s' B,
    stage_A A l s Omega Y Yn Q R s' /\
    shape Omega = (ncols A, Z.to_nat l) /\
    shape Y = (nrows A, Z.to_nat l) /\
    wf Q /\ shape Q = (nrows A, Nat.min (nrows A) (Z.to_nat l)) /\
    mm (T Q) A = Ok B /\
    wf B /\ shape B = (Nat.min (nrows A) (Z.to_nat l), ncols A).
Proof.
  intros HA Hm Hl.
  destruct (random_randn (ncols A) (Z.to_nat l) s) as [Omega s'] eqn:E1.
  destruct (randn_shape (ncols A) (Z.to_nat l) s) as [WO SO]. rewrite E1 in WO, SO.
  cbn [fst] in WO, SO. destruct (shape_inv _ _ _ SO) as [RO CO].
  destruct (matmul_shape A Omega HA WO ltac:(lia)) as (Y & E2 & WY & SY).
  destruct (shape_inv _ _ _ SY) as [RY CY].
  destruct (normalize_columns_spec Y WY ltac:(lia)) as (v & Hv & _ & E3).
  pose proof (divide_rows_wf Y v WY Hv) as WYn.
  pose proof (divide_rows_shape Y v) as SYn. set (Yn := divide_rows Y v) in *.
  destruct (shape_inv _ _ _ SYn) as [RYn CYn].
  destruct (qr_shape Yn WYn) as (Q & R & E4 & WQ & _ & SQ & _).
  rewrite RYn, CYn, RY, CY, CO in SQ. destruct (shape_inv _ _ _ SQ) as [RQ CQ].
  pose proof (T_shape Q) as STQ. destruct (shape_inv _ _ _ STQ) as [RT CT].
  destruct (matmul_shape (T Q) A (T_wf Q) HA ltac:(lia)) as (B & E5 & WB & SB).
  rewrite RT, CQ in SB.
  exists Omega, Y, Yn, Q, R, s', B.
  rewrite CO in SY.
  unfold stage_A, mm. repeat split; assumption.
Qed.

(** When the decomposition of B returns, so does the rest of Stage B. *)
Lemma stage_B_runs A Q B S Sigma Vt :
  wf Q -> wf B -> ncols Q = nrows B ->
  mm (T Q) A = Ok B -> linalg_svd B = Ok (S, Sigma, Vt) ->
  exists U, stage_B A Q B S Sigma Vt U /\
    wf S /\ shape S = (nrows B, nrows B) /\
    length Sigma = Nat.min (nrows B) (ncols B) /\ descending Sigma = true /\
    wf Vt /\ shape Vt = (ncols B, ncols B) /\
    wf U /\ shape U = (nrows Q, nrows B).
Proof.
  intros WQ WB EQ E5 E6.
  destruct (svd_shape B S Sigma Vt WB E6) as (WS & WVt & SS & LS & SVt & DS).
  destruct (shape_inv _ _ _ SS) as [RS CS].
  destruct (matmul_shape Q S WQ WS ltac:(lia)) as (U & E7 & WU & SU).
  rewrite CS in SU.
  exists U. unfold stage_B, mm.
  split; [split; [exact E5|split; [exact E6|exact E7]]|].
  repeat (split; [assumption|]). exact SU.
Qed.

(** On an array with at least one row and for [l >= 0], the one step
    that can fail is the singular value decomposition of B, and what it
    raises is LinAlgError; when it returns, Stage B runs to its end with
    these shapes, where r = min(m, l). *)
Lemma stages_run A l s :
  wf A -> 1 <= nrows A -> (0 <= l)%Z ->
  exists Omega Y Yn Q R s' B,
    stage_A A l s Omega Y Yn Q R s' /\ mm (T Q) A = Ok B /\
    wf Q /\ shape Q = (nrows A, Nat.min (nrows A) (Z.to_nat l)) /\
    wf B /\ shape B = (Nat.min (nrows A) (Z.to_nat l), ncols A) /\
    (linalg_svd B = Raise LinAlgError \/
     exists S Sigma Vt U,
       stage_B A Q B S Sigma Vt U /\
       wf S /\ shape S = (Nat.min (nrows A) (Z.to_nat l), Nat.min (nrows A) (Z.to_nat l)) /\
       length Sigma = Nat.min (Nat.min (nrows A) (Z.to_nat l)) (ncols A) /\
       descending Sigma = true /\
       wf Vt /\ shape Vt = (ncols A, ncols A) /\
       wf U /\ shape U = (nrows A, Nat.min (nrows A) (Z.to_nat l))).
Proof.
  intros HA Hm Hl.
  destruct (stage_A_runs A l s HA Hm Hl)
    as (Omega & Y & Yn & Q & R & s' & B & SA & _ & _ & WQ & SQ & E5 & WB & SB).
  exists Omega, Y, Yn, Q, R, s', B.
  repeat (split; [assumption|]).
  destruct (shape_inv _ _ _ SQ) as [RQ CQ]. destruct (shape_inv _ _ _ SB) as [RB CB].
  destruct (linalg_svd B) as [[[S Sigma] Vt]|e] eqn:E6.
  - right.
    destruct (stage_B_runs A Q B S Sigma Vt WQ WB ltac:(lia) E5 E6)
      as (U & HB & WS & SS & LS & DS & WVt & SVt & WU & SU).
    rewrite RB in SS, LS, SU. rewrite CB in LS, SVt. rewrite RQ in SU.
    exists S, Sigma, Vt, U. repeat (split; [assumption|]). exact SU.
  - left. rewrite (svd_raises B e E6). reflexivity.
Qed.

(** When the decomposition of B raises, so does [rsvd], with the same
    exception. *)
Lemma rsvd_of_svd_raise A k l return_Q s Omega Y Yn Q R s' B e :
  (0 <= l)%Z ->
  stage_A A l s Omega Y Yn Q R s' -> mm (T Q) A = Ok B -> linalg_svd B = Raise e ->
  rsvd A k (Some l) return_Q s = (Raise e, s').
Proof.
  intros Hl HA E5 E6.
  unfold rsvd, bind. rewrite (find_Q_of_stage_A _ _ _ _ _ _ _ _ _ Hl HA).
  unfold lift. rewrite E5, E6. reflexivity.
Qed.

(** With no row to reduce over, the normalization of the sketch raises
    ValueError, and so do [find_Q] and [rsvd]. *)
Lemma find_Q_no_row A l s :
  wf A -> nrows A = 0 -> (0 <= l)%Z ->
  find_Q A l s = (Raise ValueError, snd (random_randn (ncols A) (Z.to_nat l) s)).
Proof.
  intros HA Hm Hl.
  destruct (randn_shape (ncols A) (Z.to_nat l) s) as [WO SO].
  destruct (shape_inv _ _ _ SO) as [RO CO].
  destruct (matmul_shape A _ HA WO ltac:(lia)) as (Y & E2 & WY & SY).
  destruct (shape_inv _ _ _ SY) as [RY CY].
  unfold find_Q, shape, bind, lift.
  rewrite (np_random_randn_run _ _ _ Hl). unfold mm. rewrite E2.
  rewrite normalize_columns_empty by lia. reflexivity.
Qed.

Lemma rsvd_no_row A k l return_Q s :
  wf A -> nrows A = 0 -> (0 <= l)%Z ->
  rsvd A k (Some l) return_Q s =
  (Raise ValueError, snd (random_randn (ncols A) (Z.to_nat l) s)).
Proof.
  intros HA Hm Hl. unfold rsvd, bind.
  rewrite (find_Q_no_row A l s HA Hm Hl). reflexivity.
Qed.

End Stages.

(** ** The two backends meet the contract *)

Lemma draw_row_length n : forall s, length (fst (Fixture.draw_row n s)) = n.
Proof.
  induction n as [|n IH]; intros s; [reflexivity|].
  cbn [Fixture.draw_row]. specialize (IH (Fixture.lcg s)).
  destruct (Fixture.draw_row n (Fixture.lcg s)). cbn [fst length] in *. lia.
Qed.

Lemma draw_rows_shape n m : forall s,
  length (fst (Fixture.draw_rows m n s)) = m /\
  Forall (fun r => length r = n) (fst (Fixture.draw_rows m n s)).
Proof.
  induction m as [|m IH]; intros s; [split; [reflexivity|constructor]|].
  cbn [Fixture.draw_rows]. pose proof (draw_row_length n s) as Hr.
  destruct (Fixture.draw_row n s) as [r s1]. specialize (IH s1).
  destruct (Fixture.draw_rows m n s1) as [rs s2]. cbn [fst length] in *.
  destruct IH as [IH1 IH2]. split; [lia|constructor; assumption].
Qed.

Lemma eye_wf m n : wf (Fixture.eye m n).
Proof.
  unfold wf, Fixture.eye. cbn [rows ncols]. apply Forall_map, Forall_forall.
  intros i _. rewrite length_map, length_seq. reflexivity.
Qed.

Lemma eye_shape m n : shape (Fixture.eye m n) = (m, n).
Proof.
  unfold shape, nrows, Fixture.eye. cbn [rows ncols].
  rewrite length_map, length_seq. reflexivity.
Qed.

Lemma descending_zeros n : descending (repeat 0%float n) = true.
Proof.
  induction n as [|[|n] IH]; try reflexivity.
  change (descending (repeat 0%float (S (S n))))
    with ((0 <=? 0)%float && descending (repeat 0%float (S n))).
  rewrite IH. reflexivity.
Qed.

Lemma fixture_randn_shape d0 d1 s :
  wf (fst (Fixture.randn d0 d1 s)) /\ shape (fst (Fixture.randn d0 d1 s)) = (d0, d1).
Proof.
  unfold Fixture.randn.
  destruct (draw_rows_shape d1 d0 s) as [H1 H2].
  destruct (Fixture.draw_rows d0 d1 s) as [rs s']. cbn [fst] in *.
  split; [exact H2|]. unfold shape, nrows. cbn [rows ncols]. rewrite H1. reflexivity.
Qed.

Lemma fixture_product_shape X Y :
  wf X -> wf Y -> ncols X = nrows Y ->
  exists Z, Fixture.product X Y = Ok Z /\ wf Z /\ shape Z = (nrows X, ncols Y).
Proof.
  intros HX HY E. unfold Fixture.product. rewrite E, Nat.eqb_refl.
  eexists. split; [reflexivity|]. split.
  - unfold wf. cbn [rows ncols]. apply Forall_map, Forall_forall.
    intros r _. rewrite length_map, length_seq. reflexivity.
  - unfold shape, nrows. cbn [rows ncols]. rewrite length_map. reflexivity.
Qed.

Lemma fixture_product_mismatch X Y :
  ncols X <> nrows Y -> Fixture.product X Y = Raise ValueError.
Proof.
  intros E. unfold Fixture.product.
  destruct (Nat.eqb_spec (ncols X) (nrows Y)); [contradiction|reflexivity].
Qed.

Lemma fixture_svd_shape B S Sigma Vt :
  Fixture.svd B = Ok (S, Sigma, Vt) ->
  wf S /\ wf Vt /\ shape S = (nrows B, nrows B) /\
  length Sigma = Nat.min (nrows B) (ncols B) /\
  shape Vt = (ncols B, ncols B) /\ descending Sigma = true.
Proof.
  unfold Fixture.svd. intros E. injection E as <- <- <-.
  split; [apply eye_wf|]. split; [apply eye_wf|]. split; [apply eye_shape|].
  split; [apply repeat_length|]. split; [apply eye_shape|apply descending_zeros].
Qed.

Lemma fixture_contract : NumpyContract Fixture.backend.
Proof.
  constructor; cbn [random_randn matmul linalg_qr linalg_svd Fixture.backend rng].
  - exact fixture_randn_shape.
  - exact fixture_product_shape.
  - exact fixture_product_mismatch.
  - intros Y HY. unfold Fixture.qr. do 2 eexists. split; [reflexivity|].
    split; [apply eye_wf|]. split; [|split; [apply eye_shape|]].
    + unfold wf in *. cbn [rows ncols]. apply Forall_forall. intros r Hr.
      rewrite Forall_forall in HY. apply HY.
      rewrite <- (firstn_skipn (Nat.min (nrows Y) (ncols Y)) (rows Y)).
      apply in_or_app. left. exact Hr.
    + unfold shape, nrows. cbn [rows ncols]. rewrite length_firstn.
      fold (nrows Y). f_equal. lia.
  - intros B _ _. unfold Fixture.svd. do 3 eexists. reflexivity.
  - intros B e E. discriminate E.
  - intros B S Sigma Vt _. apply fixture_svd_shape.
Qed.

Lemma gram_schmidt_length cs : forall qs,
  length (GramSchmidt.gram_schmidt qs cs) = length qs + length cs.
Proof.
  induction cs as [|c cs IH]; intros qs; cbn [GramSchmidt.gram_schmidt length]; [lia|].
  rewrite IH, length_app. cbn [length]. lia.
Qed.

Lemma gram_schmidt_contract : NumpyContract GramSchmidt.backend.
Proof.
  constructor; cbn [random_randn matmul linalg_qr linalg_svd GramSchmidt.backend rng].
  - exact fixture_randn_shape.
  - exact fixture_product_shape.
  - exact fixture_product_mismatch.
  - intros Y HY. unfold GramSchmidt.qr. do 2 eexists. split; [reflexivity|].
    set (qs := GramSchmidt.gram_schmidt [] _).
    assert (length qs = Nat.min (nrows Y) (ncols Y)) as Lq.
    { unfold qs. rewrite gram_schmidt_length, length_firstn. cbn [length].
      fold (nrows (T Y)). destruct (shape_inv _ _ _ (T_shape Y)) as [-> _]. lia. }
    split; [apply T_wf|]. split; [|split].
    + unfold wf. cbn [rows ncols]. apply Forall_map, Forall_forall.
      intros q _. rewrite length_map, length_seq. reflexivity.
    + rewrite T_shape. cbn [ncols]. unfold nrows at 2. cbn [rows].
      rewrite Lq. reflexivity.
    + unfold shape, nrows. cbn [rows ncols]. rewrite length_map, Lq. reflexivity.
  - intros B _ HB. unfold GramSchmidt.svd, all_finite.
    unfold nrows in HB. destruct (rows B) eqn:E; [|discriminate].
    cbn [forallb]. unfold Fixture.svd. do 3 eexists. reflexivity.
  - intros B e. unfold GramSchmidt.svd.
    destruct (all_finite B); intros E; [discriminate E|]. injection E as <-. reflexivity.
  - intros B S Sigma Vt _. unfold GramSchmidt.svd.
    destruct (all_finite B); [apply fixture_svd_shape|discriminate].
Qed.

(** ** Claims about [find_Q] and [rsvd] *)

Section Claims.
Context {N : Numpy} {C : NumpyContract N}.

(** Every run of [rsvd] on an array with at least one row, for
    [l >= 0]: either the decomposition of B raises LinAlgError, and so
    does [rsvd], or the call returns the slices of the factors, with
    r = min(m, l). *)
Lemma rsvd_outcome A k l return_Q s :
  wf A -> 1 <= nrows A -> (0 <= l)%Z ->
  exists Omega Y Yn Q R s' B,
    stage_A A l s Omega Y Yn Q R s' /\ mm (T Q) A = Ok B /\
    wf Q /\ shape Q = (nrows A, Nat.min (nrows A) (Z.to_nat l)) /\
    wf B /\ shape B = (Nat.min (nrows A) (Z.to_nat l), ncols A) /\
    ((linalg_svd B = Raise LinAlgError /\
      rsvd A k (Some l) return_Q s = (Raise LinAlgError, s')) \/
     exists S Sigma Vt U,
       stage_B A Q B S Sigma Vt U /\
       rsvd A k (Some l) return_Q s = (Ok (returned k return_Q U Sigma Vt Q), s') /\
       shape S = (Nat.min (nrows A) (Z.to_nat l), Nat.min (nrows A) (Z.to_nat l)) /\
       length Sigma = Nat.min (Nat.min (nrows A) (Z.to_nat l)) (ncols A) /\
       descending Sigma = true /\
       shape Vt = (ncols A, ncols A) /\
       shape U = (nrows A, Nat.min (nrows A) (Z.to_nat l)) /\
       wf (take_cols k U) /\ wf (take_rows k Vt)).
Proof.
  intros HA Hm Hl.
  destruct (stages_run A l s HA Hm Hl)
    as (Omega & Y & Yn & Q & R & s' & B & SA & E5 & WQ & SQ & WB & ShB & Hsvd).
  exists Omega, Y, Yn, Q, R, s', B.
  repeat (split; [assumption|]).
  destruct Hsvd as [E6|(S & Sigma & Vt & U & SB & _ & ShS & LS & DS & WVt & SVt & WU & SU)].
  - left. split; [exact E6|].
    exact (rsvd_of_svd_raise A k l return_Q s _ _ _ _ _ _ _ _ Hl SA E5 E6).
  - right. exists S, Sigma, Vt, U.
    split; [exact SB|].
    split; [exact (rsvd_of_stages A k l return_Q s _ _ _ _ _ _ _ _ _ _ _ Hl SA SB)|].
    repeat (split; [assumption|]).
    split; [apply take_cols_wf|apply take_rows_wf]; assumption.
Qed.

(** The shapes of what [rsvd] returns for [k >= 0], when it returns: the
    slices clip at the sizes of the factors. *)
Lemma rsvd_return_shapes A k l s Uk Sk Vtk s' :
  wf A -> 1 <= nrows A -> (0 <= l)%Z -> (0 <= k)%Z ->
  rsvd A k (Some l) false s = (Ok (Ret3 Uk Sk Vtk), s') ->
  shape Uk = (nrows A, Nat.min (Z.to_nat k) (Nat.min (nrows A) (Z.to_nat l))) /\
  length Sk =
    Nat.min (Z.to_nat k) (Nat.min (Nat.min (nrows A) (Z.to_nat l)) (ncols A)) /\
  shape Vtk = (Nat.min (Z.to_nat k) (ncols A), ncols A).
Proof.
  intros HA Hm Hl Hk E.
  destruct (rsvd_outcome A k l false s HA Hm Hl)
    as (Omega & Y & Yn & Q & R & s1 & B & _ & _ & _ & _ & _ & _ &
        [[_ E']|(S & Sigma & Vt & U & _ & E' & _ & LS & _ & SVt & SU & _)]);
    rewrite E' in E; [discriminate E|].
  cbn [returned] in E. injection E as <- <- <- <-.
  destruct (shape_inv _ _ _ SVt) as [RVt CVt].
  destruct (shape_inv _ _ _ SU) as [RU CU].
  rewrite take_cols_shape, take_vec_length, take_rows_shape.
  rewrite !slice_stop_nonneg by lia. rewrite RU, CU, LS, RVt, CVt. auto.
Qed.

Lemma find_Q_returns A l s :
  wf A -> 1 <= nrows A -> (0 <= l)%Z ->
  exists Q s', find_Q A l s = (Ok Q, s') /\ wf Q /\
    shape Q = (nrows A, Nat.min (nrows A) (Z.to_nat l)).
Proof.
  intros HA Hm Hl.
  destruct (stage_A_runs A l s HA Hm Hl)
    as (Omega & Y & Yn & Q & R & s' & B & SA & _ & _ & WQ & SQ & _).
  exists Q, s'. split; [|split; assumption].
  exact (find_Q_of_stage_A A l s _ _ _ _ _ _ Hl SA).
Qed.

(** C2, as amended. For every m x n array A and integer l with
    1 <= l <= m, [find_Q A l] draws the n x l array Omega from the
    generator, forms Y = A Omega, normalizes the columns of Y, takes the
    reduced QR factorization of the result, and returns its factor Q,
    of shape (m, l); R is dropped. *)
Theorem find_Q_steps A l s :
  wf A -> (1 <= l)%Z -> Z.to_nat l <= nrows A ->
  exists Omega Y Yn Q R s',
    random_randn (ncols A) (Z.to_nat l) s = (Omega, s') /\
    shape Omega = (ncols A, Z.to_nat l) /\
    mm A Omega = Ok Y /\
    normalize_columns Y = Ok Yn /\
    linalg_qr Yn = Ok (Q, R) /\
    find_Q A l s = (Ok Q, s') /\
    wf Q /\ shape Q = (nrows A, Z.to_nat l).
Proof.
  intros HA Hl Hm.
  destruct (stage_A_runs A l s HA ltac:(lia) ltac:(lia))
    as (Omega & Y & Yn & Q & R & s' & B & SA & SO & _ & WQ & SQ & _).
  exists Omega, Y, Yn, Q, R, s'.
  pose proof (find_Q_of_stage_A A l s _ _ _ _ _ _ ltac:(lia) SA) as EQ.
  destruct SA as (E1 & E2 & E3 & E4).
  rewrite Nat.min_r in SQ by lia.
  repeat (split; [assumption|]). exact SQ.
Qed.

(** C1, as amended. For every m x n array A and integer k with
    1 <= k <= min(m, n), with l defaulting to 2k, [rsvd A k] runs
    Stage A and forms B = Q^T A; then either [np.linalg.svd] raises
    LinAlgError on B, and that is what the call raises, or the call
    returns a triple in which U_k has shape (m, k) and is the first k
    columns of U = Q S, Sigma_k has length k, is in non-increasing order
    and is the first k entries of Sigma, and Vt_k has shape (k, n) and is
    the first k rows of Vt. *)
Theorem rsvd_rank_k A k s :
  wf A -> (1 <= k)%Z -> Z.to_nat k <= Nat.min (nrows A) (ncols A) ->
  exists Omega Y Yn Q R s' B,
    stage_A A (2 * k) s Omega Y Yn Q R s' /\ mm (T Q) A = Ok B /\
    ((linalg_svd B = Raise LinAlgError /\
      rsvd A k None false s = (Raise LinAlgError, s')) \/
     exists S Sigma Vt U Uk Sk Vtk,
       stage_B A Q B S Sigma Vt U /\
       rsvd A k None false s = (Ok (Ret3 Uk Sk Vtk), s') /\
       wf Uk /\ shape Uk = (nrows A, Z.to_nat k) /\
       Uk = mkarr (Z.to_nat k) (map (firstn (Z.to_nat k)) (rows U)) /\
       length Sk = Z.to_nat k /\ descending Sk = true /\
       Sk = firstn (Z.to_nat k) Sigma /\
       wf Vtk /\ shape Vtk = (Z.to_nat k, ncols A) /\
       Vtk = mkarr (ncols A) (firstn (Z.to_nat k) (rows Vt))).
Proof.
  intros HA Hk Hm.
  destruct (rsvd_outcome A k (2 * k) false s HA ltac:(lia) ltac:(lia))
    as (Omega & Y & Yn & Q & R & s' & B & SA & E5 & _ & _ & _ & _ & Hsvd).
  exists Omega, Y, Yn, Q, R, s', B.
  split; [exact SA|]. split; [exact E5|].
  destruct Hsvd as [[E6 E]|(S & Sigma & Vt & U & SB & E & _ & LS & DS & SVt & SU & WUk & WVtk)].
  { left. split; [exact E6|exact E]. }
  right.
  destruct (shape_inv _ _ _ SVt) as [RVt CVt].
  destruct (shape_inv _ _ _ SU) as [RU CU].
  assert (slice_stop k (ncols U) = Z.to_nat k) as EU
    by (rewrite slice_stop_nonneg by lia; lia).
  assert (slice_stop k (length Sigma) = Z.to_nat k) as ES
    by (rewrite slice_stop_nonneg by lia; lia).
  assert (slice_stop k (nrows Vt) = Z.to_nat k) as EV
    by (rewrite slice_stop_nonneg by lia; lia).
  exists S, Sigma, Vt, U, (take_cols k U), (take_vec k Sigma), (take_rows k Vt).
  split; [exact SB|]. split; [exact E|].
  split; [exact WUk|].
  split; [rewrite take_cols_shape, EU, RU; reflexivity|].
  split; [unfold take_cols; rewrite EU; reflexivity|].
  split; [rewrite take_vec_length; exact ES|].
  split; [apply descending_firstn; exact DS|].
  split; [unfold take_vec; rewrite ES; reflexivity|].
  split; [exact WVtk|].
  split; [rewrite take_rows_shape, EV, CVt; reflexivity|].
  unfold take_rows. rewrite EV, CVt. reflexivity.
Qed.

(** C5, as amended. For every m x n array A with m >= 1 and integers
    k > l >= 1, the truncation of [rsvd A k l] raises nothing: the call
    runs Stage A and forms B = Q^T A; then either [np.linalg.svd] raises
    LinAlgError on B, and that is what the call raises, or the call
    returns, and U_k has min(m, l) columns and Sigma_k has min(m, l, n)
    entries, both fewer than k, while Vt_k has min(k, n) rows, which is
    fewer than k only when n < k. *)
Theorem rsvd_k_above_l A k l s :
  wf A -> 1 <= nrows A -> (1 <= l)%Z -> (l < k)%Z ->
  exists Omega Y Yn Q R s' B,
    stage_A A l s Omega Y Yn Q R s' /\ mm (T Q) A = Ok B /\
    ((linalg_svd B = Raise LinAlgError /\
      rsvd A k (Some l) false s = (Raise LinAlgError, s')) \/
     exists Uk Sk Vtk,
       rsvd A k (Some l) false s = (Ok (Ret3 Uk Sk Vtk), s') /\
       shape Uk = (nrows A, Nat.min (nrows A) (Z.to_nat l)) /\
       ncols Uk < Z.to_nat k /\
       length Sk = Nat.min (Nat.min (nrows A) (Z.to_nat l)) (ncols A) /\
       length Sk < Z.to_nat k /\
       shape Vtk = (Nat.min (Z.to_nat k) (ncols A), ncols A)).
Proof.
  intros HA Hm Hl Hk.
  destruct (rsvd_outcome A k l false s HA Hm ltac:(lia))
    as (Omega & Y & Yn & Q & R & s' & B & SA & E5 & _ & _ & _ & _ & Hsvd).
  exists Omega, Y, Yn, Q, R, s', B.
  split; [exact SA|]. split; [exact E5|].
  destruct Hsvd as [[E6 E]|(S & Sigma & Vt & U & _ & E & _)].
  { left. split; [exact E6|exact E]. }
  right. cbn [returned] in E.
  destruct (rsvd_return_shapes A k l s _ _ _ _ HA Hm ltac:(lia) ltac:(lia) E)
    as (SU & LS & SV).
  exists (take_cols k U), (take_vec k Sigma), (take_rows k Vt).
  destruct (shape_inv _ _ _ SU) as [_ CU].
  split; [exact E|]. rewrite SU, CU, LS, SV.
  repeat split; try (f_equal; lia); lia.
Qed.

(** C6, as amended. For every m x n array A and integers k, l with
    1 <= l <= m and l < k <= n, [rsvd A k l] runs Stage A and forms the
    l x n array B = Q^T A; then either [np.linalg.svd] raises
    LinAlgError on B, and that is what the call raises, or the call
    returns factors whose sizes do not fit together: U_k has only l
    columns and Sigma_k only min(l, n) = l entries, but Vt_k has k rows,
    because the full-matrices decomposition of B makes Vt an n x n
    array. *)
Theorem rsvd_sizes_disagree A k l s :
  wf A -> (1 <= l)%Z -> (l < k)%Z -> Z.to_nat k <= ncols A -> Z.to_nat l <= nrows A ->
  exists Omega Y Yn Q R s' B,
    stage_A A l s Omega Y Yn Q R s' /\ mm (T Q) A = Ok B /\
    shape B = (Z.to_nat l, ncols A) /\
    ((linalg_svd B = Raise LinAlgError /\
      rsvd A k (Some l) false s = (Raise LinAlgError, s')) \/
     exists S Sigma Vt U Uk Sk Vtk,
       stage_B A Q B S Sigma Vt U /\
       shape Vt = (ncols A, ncols A) /\
       rsvd A k (Some l) false s = (Ok (Ret3 Uk Sk Vtk), s') /\
       shape Uk = (nrows A, Z.to_nat l) /\
       length Sk = Nat.min (Z.to_nat l) (ncols A) /\
       shape Vtk = (Z.to_nat k, ncols A) /\
       ncols Uk <> nrows Vtk /\ length Sk <> nrows Vtk).
Proof.
  intros HA Hl Hk Hn Hm.
  destruct (rsvd_outcome A k l false s HA ltac:(lia) ltac:(lia))
    as (Omega & Y & Yn & Q & R & s' & B & SA & E5 & _ & _ & _ & ShB & Hsvd).
  exists Omega, Y, Yn, Q, R, s', B.
  replace (Nat.min (nrows A) (Z.to_nat l)) with (Z.to_nat l) in * by lia.
  split; [exact SA|]. split; [exact E5|]. split; [exact ShB|].
  destruct Hsvd as [[E6 E]|(S & Sigma & Vt & U & SB & E & _ & LS & _ & SVt & SU & _)].
  { left. split; [exact E6|exact E]. }
  right.
  destruct (shape_inv _ _ _ SVt) as [RVt CVt].
  destruct (shape_inv _ _ _ SU) as [RU CU].
  exists S, Sigma, Vt, U, (take_cols k U), (take_vec k Sigma), (take_rows k Vt).
  split; [exact SB|]. split; [exact SVt|]. split; [exact E|].
  destruct (shape_inv _ _ _ (take_cols_shape k U)) as [_ C1].
  destruct (shape_inv _ _ _ (take_rows_shape k Vt)) as [R2 _].
  rewrite C1, R2, take_cols_shape, take_vec_length, take_rows_shape.
  rewrite !slice_stop_nonneg by lia.
  repeat split; try (f_equal; lia); lia.
Qed.

(** C10, as amended. For every m x n array A with m >= 1 and n >= 1,
    [rsvd A 0] raises nothing although k >= 1 is violated: l defaults to
    0, and the call returns an m x 0 array U_k, an empty vector Sigma_k
    and a 0 x n array Vt_k. *)
Theorem rsvd_rank_zero A s :
  wf A -> 1 <= nrows A -> 1 <= ncols A ->
  rsvd A 0 None false s = rsvd A 0 (Some 0%Z) false s /\
  exists Uk Vtk s',
    rsvd A 0 None false s = (Ok (Ret3 Uk [] Vtk), s') /\
    wf Uk /\ shape Uk = (nrows A, 0) /\
    wf Vtk /\ shape Vtk = (0, ncols A).
Proof.
  intros HA Hm Hn. split; [reflexivity|].
  destruct (rsvd_outcome A 0 0 false s HA Hm ltac:(lia))
    as (Omega & Y & Yn & Q & R & s' & B & _ & _ & _ & _ & WB & ShB & Hsvd).
  destruct (shape_inv _ _ _ ShB) as [RB _].
  rewrite Nat.min_r in RB by (cbn; lia).
  destruct Hsvd as [[E6 _]|(S & Sigma & Vt & U & _ & E & _ & _ & _ & SVt & SU & WUk & WVtk)].
  { destruct (svd_no_row B WB RB) as (S & Sigma & Vt & E). rewrite E in E6. discriminate E6. }
  destruct (shape_inv _ _ _ SVt) as [RVt CVt].
  destruct (shape_inv _ _ _ SU) as [RU CU].
  exists (take_cols 0 U), (take_rows 0 Vt), s'.
  split; [exact E|]. split; [exact WUk|].
  split; [rewrite take_cols_shape, RU; reflexivity|].
  split; [exact WVtk|].
  rewrite take_rows_shape, CVt. reflexivity.
Qed.

End Claims.

(** X13. For l >= 0, [rsvd] advances the generator by the one draw of
    [find_Q] and by nothing else, whether or not a later step raises. *)
Lemma rsvd_generator_state {N : Numpy} A k l return_Q (s : rng) :
  let l' := match l with None => (2 * k)%Z | Some l0 => l0 end in
  (0 <= l')%Z ->
  snd (rsvd A k l return_Q s) = snd (random_randn (ncols A) (Z.to_nat l') s).
Proof.
  intros l' H. unfold rsvd. fold l'. generalize dependent l'. intros l' H.
  unfold bind at 1. unfold find_Q, shape, bind, np_random_randn, lift, ret.
  destruct (Z.ltb_spec l' 0); [lia|].
  destruct (random_randn (ncols A) (Z.to_nat l') s) as [O1 t1]. cbn [snd].
  destruct (mm A O1) as [Y|e]; [|reflexivity].
  destruct (normalize_columns Y) as [Yn|e]; [|reflexivity].
  destruct (linalg_qr Yn) as [[Q R]|e]; [|reflexivity].
  destruct (mm (T Q) A) as [B|e]; [|reflexivity].
  destruct (linalg_svd B) as [[[S Sigma] Vt]|e]; [|reflexivity].
  destruct (mm Q S) as [U|e]; [|reflexivity].
  destruct return_Q; reflexivity.
Qed.

(** ** The theorems at concrete inputs *)

(** [find_Q_steps] on the 2 x 3 array with l = 2. *)
Lemma find_Q_steps_witness :
  exists Q s', find_Q (N := Fixture.backend) A_2x3 2 42%Z = (Ok Q, s') /\ shape Q = (2, 2).
Proof.
  destruct (@find_Q_steps Fixture.backend fixture_contract A_2x3 2 42%Z)
    as (Omega & Y & Yn & Q & R & s' & _ & _ & _ & _ & _ & E & _ & SQ).
  - repeat constructor.
  - lia.
  - vm_compute. lia.
  - exists Q, s'. split; [exact E|exact SQ].
Defined.

(** [rsvd_rank_k] on the 2 x 3 array with k = 1, on the backend whose
    decomposition raises on nan: here B is finite and the call returns. *)
Lemma rsvd_rank_k_witness :
  exists Uk Sk Vtk s',
    rsvd (N := GramSchmidt.backend) A_2x3 1 None false 42%Z = (Ok (Ret3 Uk Sk Vtk), s') /\
    shape Uk = (2, 1) /\ length Sk = 1 /\ descending Sk = true /\ shape Vtk = (1, 3).
Proof.
  destruct (@rsvd_rank_k GramSchmidt.backend gram_schmidt_contract A_2x3 1 42%Z)
    as (Omega & Y & Yn & Q & R & s' & B & _ & _ &
        [[_ E]|(S & Sigma & Vt & U & Uk & Sk & Vtk &
                _ & E & _ & SU & _ & LS & DS & _ & _ & SV & _)]).
  - repeat constructor.
  - lia.
  - vm_compute. lia.
  - apply (f_equal fst) in E. vm_compute in E. discriminate E.
  - exists Uk, Sk, Vtk, s'. repeat split; assumption.
Defined.

(** [rsvd_k_above_l] on the 2 x 3 array with k = 3 and l = 2. *)
Lemma rsvd_k_above_l_witness :
  exists Uk Sk Vtk s',
    rsvd (N := GramSchmidt.backend) A_2x3 3 (Some 2%Z) false 42%Z =
      (Ok (Ret3 Uk Sk Vtk), s') /\
    shape Uk = (2, 2) /\ length Sk = 2 /\ shape Vtk = (3, 3).
Proof.
  destruct (@rsvd_k_above_l GramSchmidt.backend gram_schmidt_contract A_2x3 3 2 42%Z)
    as (Omega & Y & Yn & Q & R & s' & B & _ & _ &
        [[_ E]|(Uk & Sk & Vtk & E & SU & _ & LS & _ & SV)]).
  - repeat constructor.
  - vm_compute. lia.
  - lia.
  - lia.
  - apply (f_equal fst) in E. vm_compute in E. discriminate E.
  - exists Uk, Sk, Vtk, s'. repeat split; assumption.
Defined.

(** [rsvd_sizes_disagree] on the 2 x 3 array with k = 3 and l = 2. *)
Lemma rsvd_sizes_disagree_witness :
  exists Uk Sk Vtk s',
    rsvd (N := GramSchmidt.backend) A_2x3 3 (Some 2%Z) false 42%Z =
      (Ok (Ret3 Uk Sk Vtk), s') /\
    shape Uk = (2, 2) /\ length Sk = 2 /\ shape Vtk = (3, 3) /\ ncols Uk <> nrows Vtk.
Proof.
  destruct (@rsvd_sizes_disagree GramSchmidt.backend gram_schmidt_contract A_2x3 3 2 42%Z)
    as (Omega & Y & Yn & Q & R & s' & B & _ & _ & _ &
        [[_ E]|(S & Sigma & Vt & U & Uk & Sk & Vtk &
                _ & _ & E & SU & LS & SV & D & _)]).
  - repeat constructor.
  - lia.
  - lia.
  - vm_compute. lia.
  - vm_compute. lia.
  - apply (f_equal fst) in E. vm_compute in E. discriminate E.
  - exists Uk, Sk, Vtk, s'. repeat split; assumption.
Defined.

(** [rsvd_rank_zero] on the 2 x 3 array. *)
Lemma rsvd_rank_zero_witness :
  exists Uk Vtk s',
    rsvd (N := Fixture.backend) A_2x3 0 None false 42%Z = (Ok (Ret3 Uk [] Vtk), s') /\
    shape Uk = (2, 0) /\ shape Vtk = (0, 3).
Proof.
  destruct (@rsvd_rank_zero Fixture.backend fixture_contract A_2x3 42%Z)
    as (_ & Uk & Vtk & s' & E & _ & SU & _ & SV).
  - repeat constructor.
  - vm_compute. lia.
  - vm_compute. lia.
  - exists Uk, Vtk, s'. repeat split; assumption.
Defined.

(** ** The claims as written, refuted *)

(** C1 as written fails twice. For k > min(m, n) the slices clip: on the
    1 x 1 array with k = 2, whatever the backend, a returned triple has
    U_k of shape (1, 1), Sigma_k of one entry and Vt_k of shape (1, 1),
    where the claim announces (1, 2), 2 and (2, 1); the run shown returns
    such a triple. And the call need not return: on the zero matrix of
    shape (2, 3) with k = 1 the sketch is zero, its normalization is
    0/0 = nan, the nan reaches B, and the decomposition raises
    LinAlgError. *)
Lemma rsvd_rank_k_counterexample :
  wf A_1x1 /\ shape A_1x1 = (1, 1) /\
  (forall (N : Numpy) (C : NumpyContract N) (s s' : rng) Uk Sk Vtk,
     rsvd A_1x1 2 None false s = (Ok (Ret3 Uk Sk Vtk), s') ->
     shape Uk = (1, 1) /\ length Sk = 1 /\ shape Vtk = (1, 1)) /\
  fst (rsvd (N := Fixture.backend) A_1x1 2 None false 42%Z) =
    Ok (Ret3 (mkarr 1 [[1]]) [0] (mkarr 1 [[1]]))%float /\
  wf A_zero /\ shape A_zero = (2, 3) /\
  fst (rsvd (N := GramSchmidt.backend) A_zero 1 None false 42%Z) = Raise LinAlgError.
Proof.
  split; [repeat constructor|]. split; [reflexivity|]. split; [|split; [reflexivity|]].
  - intros N C s s' Uk Sk Vtk E.
    apply (@rsvd_return_shapes N C A_1x1 2 4 s Uk Sk Vtk s');
      [repeat constructor|vm_compute; lia|lia|lia|exact E].
  - split; [repeat constructor|]. split; [reflexivity|]. vm_compute. reflexivity.
Qed.

(** C2 as written fails for l > m: on the 1 x 1 array with l = 2,
    whatever the backend, Q has shape (1, 1), not (1, 2). *)
Lemma find_Q_steps_counterexample :
  wf A_1x1 /\ shape A_1x1 = (1, 1) /\
  (forall (N : Numpy) (C : NumpyContract N) (s : rng),
     exists Q s', find_Q A_1x1 2 s = (Ok Q, s') /\ shape Q = (1, 1)) /\
  fst (find_Q (N := Fixture.backend) A_1x1 2 42%Z) = Ok (mkarr 1 [[1]])%float.
Proof.
  split; [repeat constructor|]. split; [reflexivity|]. split; [|reflexivity].
  intros N C s.
  destruct (@find_Q_returns N C A_1x1 2 s) as (Q & s' & E & _ & SQ);
    [repeat constructor|vm_compute; lia|lia|].
  exists Q, s'. split; [exact E|exact SQ].
Qed.

(** C5 as written fails three times. On the 1 x 3 array with k = 2 and
    l = 1, whatever the backend, a returned Vt_k has 2 rows, which is not
    fewer than k; the run shown returns such a triple. On the 0 x 3
    array the call raises ValueError. On the zero matrix of shape (2, 3)
    it raises LinAlgError, from the decomposition of an array of nan. *)
Lemma rsvd_k_above_l_counterexample :
  wf A_1x3 /\ shape A_1x3 = (1, 3) /\
  (forall (N : Numpy) (C : NumpyContract N) (s s' : rng) Uk Sk Vtk,
     rsvd A_1x3 2 (Some 1%Z) false s = (Ok (Ret3 Uk Sk Vtk), s') ->
     shape Uk = (1, 1) /\ length Sk = 1 /\ shape Vtk = (2, 3)) /\
  fst (rsvd (N := Fixture.backend) A_1x3 2 (Some 1%Z) false 42%Z) =
    Ok (Ret3 (mkarr 1 [[1]]) [0] (mkarr 3 [[1; 0; 0]; [0; 1; 0]]))%float /\
  wf A_0x3 /\ shape A_0x3 = (0, 3) /\
  (forall (N : Numpy) (C : NumpyContract N) (s : rng),
     fst (rsvd A_0x3 2 (Some 1%Z) false s) = Raise ValueError) /\
  wf A_zero /\ shape A_zero = (2, 3) /\
  fst (rsvd (N := GramSchmidt.backend) A_zero 2 (Some 1%Z) false 42%Z) = Raise LinAlgError.
Proof.
  split; [repeat constructor|]. split; [reflexivity|]. split.
  { intros N C s s' Uk Sk Vtk E.
    apply (@rsvd_return_shapes N C A_1x3 2 1 s Uk Sk Vtk s');
      [repeat constructor|vm_compute; lia|lia|lia|exact E]. }
  split; [reflexivity|].
  split; [constructor|]. split; [reflexivity|]. split.
  { intros N C s.
    rewrite (@rsvd_no_row N C A_0x3 2 1 false s); [reflexivity|constructor|reflexivity|lia]. }
  split; [repeat constructor|]. split; [reflexivity|]. vm_compute. reflexivity.
Qed.

(** C6 as written fails twice. For l > m: on the 1 x 3 array with l = 2
    and k = 3, whatever the backend, a returned U_k has one column and
    Sigma_k one entry, where the claim announces l = 2 of each; the run
    shown returns such a triple. And the call need not return: on the
    zero matrix of shape (2, 3) with l = 1 and k = 2 it raises
    LinAlgError. *)
Lemma rsvd_sizes_disagree_counterexample :
  wf A_1x3 /\ shape A_1x3 = (1, 3) /\
  (forall (N : Numpy) (C : NumpyContract N) (s s' : rng) Uk Sk Vtk,
     rsvd A_1x3 3 (Some 2%Z) false s = (Ok (Ret3 Uk Sk Vtk), s') ->
     shape Uk = (1, 1) /\ length Sk = 1 /\ shape Vtk = (3, 3)) /\
  fst (rsvd (N := Fixture.backend) A_1x3 3 (Some 2%Z) false 42%Z) =
    Ok (Ret3 (mkarr 1 [[1]]) [0]
          (mkarr 3 [[1; 0; 0]; [0; 1; 0]; [0; 0; 1]]))%float /\
  wf A_zero /\ shape A_zero = (2, 3) /\
  fst (rsvd (N := GramSchmidt.backend) A_zero 2 (Some 1%Z) false 42%Z) = Raise LinAlgError.
Proof.
  split; [repeat constructor|]. split; [reflexivity|]. split; [|split; [reflexivity|]].
  - intros N C s s' Uk Sk Vtk E.
    apply (@rsvd_return_shapes N C A_1x3 3 2 s Uk Sk Vtk s');
      [repeat constructor|vm_compute; lia|lia|lia|exact E].
  - split; [repeat constructor|]. split; [reflexivity|]. vm_compute. reflexivity.
Qed.

(** C10 as written fails for m = 0: on the 0 x 3 array, whatever the
    backend, [rsvd A 0] raises ValueError, from the reduction of the
    empty sketch in [normalize_columns]. *)
Lemma rsvd_rank_zero_counterexample :
  wf A_0x3 /\ shape A_0x3 = (0, 3) /\
  (forall (N : Numpy) (C : NumpyContract N) (s : rng),
     fst (rsvd A_0x3 0 None false s) = Raise ValueError) /\
  fst (rsvd (N := Fixture.backend) A_0x3 0 None false 42%Z) = Raise ValueError.
Proof.
  split; [constructor|]. split; [reflexivity|]. split; [|reflexivity].
  intros N C s. rewrite rsvd_default_l.
  rewrite (@rsvd_no_row N C A_0x3 0 (2 * 0) false s); [reflexivity|constructor|reflexivity|lia].
Qed.

(** * Further properties of the program *)

(** ** More binary64 arithmetic: quotients of at least one, nan and
    infinite divisors *)
Section Binary64Quotients.
Local Open Scope Z_scope.

(** One pass of [shr_fexp] leaves a mantissa of at most 53 bits, and
    keeps a value of at least one at least one. *)
Lemma shr_fexp_post q e l :
  0 <= q ->
  0 <= shr_m (fst (shr_fexp prec emax q e l)) < 2 ^ 53 /\
  (1 <= q -> 2 ^ (- e) <= q ->
   1 <= shr_m (fst (shr_fexp prec emax q e l)) /\
   2 ^ (- snd (shr_fexp prec emax q e l)) <= shr_m (fst (shr_fexp prec emax q e l))).
Proof.
  intros Hq. unfold shr_fexp. rewrite fexp_eq.
  pose proof (Zdigits2_upper q Hq) as Hup.
  pose proof (Zdigits2_nonneg q) as Hd0.
  set (d := Zdigits2 q) in *.
  set (n := Z.max (d + e - 53) (-1074) - e).
  destruct (shr_spec (shr_record_of_loc q l) e n) as [[Hn E]|[Hn [Em Ee]]];
    try (rewrite shr_m_of_loc; exact Hq).
  - rewrite E. cbn [fst snd]. rewrite shr_m_of_loc. split.
    + split; [exact Hq|].
      apply Z.lt_le_trans with (1 := Hup). apply Z.pow_le_mono_r; lia.
    + auto.
  - rewrite Em, Ee, shr_m_of_loc. split.
    + split; [apply Z.div_pos; [exact Hq | apply Z.pow_pos_nonneg; lia]|].
      apply Z.div_lt_upper_bound; [apply Z.pow_pos_nonneg; lia|].
      rewrite <- Z.pow_add_r by lia.
      apply Z.lt_le_trans with (1 := Hup). apply Z.pow_le_mono_r; lia.
    + intros H1 Hge.
      pose proof (Zdigits2_lower q ltac:(lia)) as Hlo. fold d in Hlo.
      assert (1 <= d) as Hd1.
      { destruct (Z_lt_le_dec d 1) as [L|L]; [|exact L].
        assert (d = 0) by lia. rewrite H in Hup. change (2 ^ 0) with 1 in Hup. lia. }
      assert (- e < d) as Hed.
      { destruct (Z_lt_le_dec (- e) d) as [L|L]; [exact L|].
        assert (2 ^ d <= 2 ^ (- e)) by (apply Z.pow_le_mono_r; lia). lia. }
      assert (n = d - 53) as En by lia.
      assert (0 < 2 ^ n) as Hpn by (apply Z.pow_pos_nonneg; lia).
      split.
      * apply Z.div_le_lower_bound; [exact Hpn|].
        apply Z.le_trans with (2 ^ (d - 1)); [|exact Hlo].
        rewrite Z.mul_1_r. apply Z.pow_le_mono_r; lia.
      * destruct (Z_lt_le_dec (- (e + n)) 0) as [L|L].
        { rewrite Z.pow_neg_r by exact L.
          apply Z.div_pos; [exact Hq|exact Hpn]. }
        apply Z.div_le_lower_bound; [exact Hpn|].
        rewrite <- Z.pow_add_r by lia.
        replace (n + - (e + n)) with (- e) by lia. exact Hge.
Qed.

(** Rounding a positive value [q * 2^e] of at least one gives at least
    one (possibly infinity). *)
Lemma binary_round_aux_ge_one q e l :
  1 <= q -> 2 ^ (- e) <= q ->
  SFleb sf_one (binary_round_aux prec emax false q e l) = true.
Proof.
  intros H1 Hge. unfold binary_round_aux.
  destruct (shr_fexp_post q e l ltac:(lia)) as [[Hm0 _] Hk].
  destruct (Hk H1 Hge) as [Hm1 Hme]. clear Hk.
  destruct (shr_fexp prec emax q e l) as [r1 e1]. cbn [fst snd] in *.
  set (m2 := round_nearest_even (shr_m r1) (loc_of_shr_record r1)).
  pose proof (round_nearest_even_bounds (shr_m r1) (loc_of_shr_record r1)) as Hm2.
  fold m2 in Hm2.
  destruct (shr_fexp_post m2 e1 loc_Exact ltac:(lia)) as [[Hn0 Hn53] Hk].
  destruct (Hk ltac:(lia) ltac:(lia)) as [Hn1 Hne]. clear Hk.
  destruct (shr_fexp prec emax m2 e1 loc_Exact) as [r2 e2]. cbn [fst snd] in *.
  destruct (shr_m r2) as [|p|p] eqn:E3; try lia.
  destruct (e2 <=? emax - prec); [|reflexivity].
  apply SFleb_finite_pos.
  destruct (Z_lt_le_dec (-52) e2) as [L|L]; [left; exact L|right].
  assert (2 ^ 52 <= 2 ^ (- e2)) as Hp by (apply Z.pow_le_mono_r; lia).
  destruct (Z.eq_dec e2 (-52)) as [->|Ne].
  - split; [reflexivity|]. change (2 ^ 52) with 4503599627370496 in Hp.
    change (- -52) with 52 in Hne. change (2 ^ 52) with 4503599627370496 in Hne. lia.
  - exfalso.
    assert (2 ^ 53 <= 2 ^ (- e2)) by (apply Z.pow_le_mono_r; lia). lia.
Qed.

Lemma SFleb_finite_neg_inv m1 e1 m2 e2 :
  SFleb (S754_finite true m1 e1) (S754_finite true m2 e2) = true ->
  e2 < e1 \/ (e1 = e2 /\ Z.pos m2 <= Z.pos m1).
Proof.
  unfold SFleb, SFcompare.
  destruct (Z.compare_spec e1 e2); try lia; try discriminate.
  rewrite Pos.compare_cont_spec. cbn [Pos.switch_Eq].
  destruct (Pos.compare_spec m1 m2); try discriminate; intros _; right; split; lia.
Qed.

(** For a negative finite [y] and any [x <= y], the rounded quotient
    [x / y] is at least one. *)
Lemma SFdiv_ge_one x my ey :
  valid_binary x = true -> bounded prec emax my ey = true ->
  SFleb x (S754_finite true my ey) = true ->
  SFleb sf_one (SFdiv prec emax x (S754_finite true my ey)) = true.
Proof.
  intros Hx Hy Hle.
  destruct x as [sx|[]| |[] mx ex]; try discriminate Hle.
  - reflexivity.
  - cbn [valid_binary] in Hx.
    destruct (bounded_canonical mx ex Hx) as [Cx _].
    destruct (bounded_canonical my ey Hy) as [Cy _].
    apply SFleb_finite_neg_inv in Hle.
    cbn [SFdiv xorb]. rewrite SFdiv_core_shape.
    pose proof (Zdigits2_upper (Z.pos my) ltac:(lia)) as Uy.
    pose proof (Zdigits2_lower (Z.pos mx) ltac:(lia)) as Lx.
    cbn [Zdigits2] in *.
    set (dx := Z.pos (digits2_pos mx)) in *.
    set (dy := Z.pos (digits2_pos my)) in *.
    assert (ey <= ex /\ Z.pos my <= Z.pos mx * 2 ^ (ex - ey)) as [H1 H2].
    { destruct Hle as [L|[-> L]].
      - split; [lia|].
        assert (dx = 53) as Edx by lia. assert (dy <= 53) by lia.
        rewrite Edx in Lx. change (2 ^ (53 - 1)) with 4503599627370496 in Lx.
        assert (2 ^ dy <= 2 ^ 53) by (apply Z.pow_le_mono_r; lia).
        assert (2 ^ 1 <= 2 ^ (ex - ey)) by (apply Z.pow_le_mono_r; lia).
        change (2 ^ 53) with 9007199254740992 in *. change (2 ^ 1) with 2 in *.
        nia.
      - split; [lia|]. rewrite Z.sub_diag, Z.pow_0_r. lia. }
    set (e' := Z.min (Z.max (dx + ex - (dy + ey) - 53) (-1074)) (ex - ey)).
    assert (0 <= ex - ey - e') as Hs by (subst e'; lia).
    assert (0 < 2 ^ (ex - ey - e')) as Hp by (apply Z.pow_pos_nonneg; lia).
    assert (0 < 2 ^ (ex - ey)) as Hp' by (apply Z.pow_pos_nonneg; lia).
    assert (Z.pos my <= Z.pos mx * 2 ^ (ex - ey - e')) as Hq.
    { destruct (Z_le_gt_dec e' 0) as [L|G].
      - replace (ex - ey - e') with ((ex - ey) + (- e')) by lia.
        rewrite Z.pow_add_r by lia.
        assert (1 <= 2 ^ (- e')) by (apply (Z.pow_le_mono_r 2 0); lia). nia.
      - assert (e' = dx + ex - (dy + ey) - 53) as Ee by (subst e'; lia).
        replace (ex - ey - e') with (dy + (53 - dx)) by lia.
        assert (dx <= 53) by lia.
        rewrite Z.pow_add_r by lia.
        assert (1 <= 2 ^ (53 - dx)) by (apply (Z.pow_le_mono_r 2 0); lia).
        assert (0 < 2 ^ dy) by (apply Z.pow_pos_nonneg; lia).
        assert (2 ^ dy <= 2 ^ dy * 2 ^ (53 - dx)) by nia.
        assert (2 ^ dy * 2 ^ (53 - dx) <= Z.pos mx * (2 ^ dy * 2 ^ (53 - dx))) by nia.
        lia. }
    apply binary_round_aux_ge_one.
    + apply Z.div_le_lower_bound; lia.
    + destruct (Z_lt_le_dec (- e') 0) as [L|L].
      { rewrite Z.pow_neg_r by exact L. apply Z.div_pos; nia. }
      apply Z.div_le_lower_bound; [lia|].
      replace (ex - ey - e') with ((ex - ey) + (- e')) by lia.
      rewrite Z.pow_add_r by lia.
      assert (0 < 2 ^ (- e')) by (apply Z.pow_pos_nonneg; lia). nia.
Qed.

Lemma neg_finite_spec x :
  neg_finite x = true <-> exists m e, Prim2SF x = S754_finite true m e.
Proof.
  unfold neg_finite. rewrite !ltb_spec, Prim2SF_zero.
  change (Prim2SF neg_infinity) with (S754_infinity true).
  unfold SFltb. split.
  - intros H. apply andb_prop in H as [H1 H2].
    destruct (Prim2SF x) as [[]|[]| |[] m e]; try discriminate. eauto.
  - intros (m & e & ->). reflexivity.
Qed.

Lemma div_self_neg x : neg_finite x = true -> (x / x)%float = 1%float.
Proof.
  intros H. apply neg_finite_spec in H as (m & e & E).
  apply Prim2SF_inj. rewrite div_spec, E, Prim2SF_one. apply SFdiv_self.
Qed.

Lemma div_ge_one x y :
  neg_finite y = true -> (x <=? y)%float = true -> (1 <=? x / y)%float = true.
Proof.
  intros Hy Hle. apply neg_finite_spec in Hy as (m & e & E).
  rewrite leb_spec in *. rewrite div_spec, Prim2SF_one. rewrite E in *.
  apply SFdiv_ge_one; [apply Prim2SF_valid | | exact Hle].
  pose proof (Prim2SF_valid y) as V. rewrite E in V. exact V.
Qed.

Lemma neg_finite_not_nan d : neg_finite d = true -> is_nan d = false.
Proof.
  intros H. apply neg_finite_spec in H as (m & e & E).
  apply is_nan_false_iff. rewrite E. discriminate.
Qed.

(** A negative finite number is determined by the order. *)
Lemma leb_antisym_neg x y :
  neg_finite y = true -> (x <=? y)%float = true -> (y <=? x)%float = true -> x = y.
Proof.
  intros Hy H1 H2. apply neg_finite_spec in Hy as (m & e & E).
  rewrite leb_spec in H1, H2. apply Prim2SF_inj. rewrite E in *.
  destruct (Prim2SF x) as [[]|[]| |[] mx ex]; try discriminate.
  apply SFleb_finite_neg_inv in H1, H2.
  f_equal; lia.
Qed.

(** A nan on either side of a division gives nan. *)
Lemma div_nan_r x d : is_nan d = true -> is_nan (x / d)%float = true.
Proof.
  intros H. apply is_nan_iff in H. apply is_nan_iff.
  rewrite div_spec, H. destruct (Prim2SF x); reflexivity.
Qed.

Lemma is_finite_iff x :
  is_finite x = true <->
  (exists s, Prim2SF x = S754_zero s) \/ exists s m e, Prim2SF x = S754_finite s m e.
Proof.
  unfold is_finite. split.
  - intros H. apply negb_true_iff, orb_false_elim in H as [H1 H2].
    apply is_nan_false_iff in H1.
    destruct (Prim2SF x) as [sx|sx| |sx m e] eqn:Ex; eauto.
    + assert (is_infinity x = true) as I by (apply is_infinity_iff; eauto).
      rewrite I in H2. discriminate H2.
    + contradiction.
  - intros H. apply negb_true_iff, orb_false_intro.
    + apply is_nan_false_iff. destruct H as [[s E]|(s & m & e & E)]; rewrite E; discriminate.
    + destruct (is_infinity x) eqn:I; [|reflexivity].
      apply is_infinity_iff in I as [t I].
      destruct H as [[s E]|(s & m & e & E)]; rewrite E in I; discriminate.
Qed.

(** Over plus infinity a finite number gives a zero, an infinity nan. *)
Lemma div_infinity_finite x : is_finite x = true -> is_zero (x / infinity)%float = true.
Proof.
  intros H. apply is_finite_iff in H. apply is_zero_iff.
  rewrite div_spec, Prim2SF_infinity.
  destruct H as [[s E]|(s & m & e & E)]; rewrite E; cbn; eauto.
Qed.

Lemma div_infinity_infinity x : is_infinity x = true -> is_nan (x / infinity)%float = true.
Proof.
  intros H. apply is_infinity_iff in H as [s E]. apply is_nan_iff.
  rewrite div_spec, Prim2SF_infinity, E. reflexivity.
Qed.

(** A number that is not a zero is determined by the order: the two
    zeros are the only numbers that compare equal without being the
    same. *)
Lemma leb_antisym_nonzero x y :
  is_zero y = false -> (x <=? y)%float = true -> (y <=? x)%float = true -> x = y.
Proof.
  intros Hz H1 H2. rewrite leb_spec in H1, H2. apply Prim2SF_inj.
  destruct (Prim2SF y) as [sy|[]| |[] my ey] eqn:Ey.
  - assert (is_zero y = true) as Z by (apply is_zero_iff; eauto).
    rewrite Z in Hz. discriminate Hz.
  - destruct (Prim2SF x) as [[]|[]| |[] mx ex]; try discriminate; reflexivity.
  - destruct (Prim2SF x) as [[]|[]| |[] mx ex]; try discriminate; reflexivity.
  - destruct (Prim2SF x); discriminate.
  - destruct (Prim2SF x) as [[]|[]| |[] mx ex]; try discriminate.
    apply SFleb_finite_neg_inv in H1, H2. f_equal; lia.
  - destruct (Prim2SF x) as [[]|[]| |[] mx ex]; try discriminate.
    apply SFleb_finite_pos_inv in H1, H2. f_equal; lia.
Qed.

Lemma leb_infinity_eq d : (infinity <=? d)%float = true -> d = infinity.
Proof.
  rewrite leb_spec, Prim2SF_infinity. intros H.
  apply Prim2SF_inj. rewrite Prim2SF_infinity.
  destruct (Prim2SF d) as [[]|[]| |[] m e]; try discriminate. reflexivity.
Qed.

End Binary64Quotients.

(** ** More about [normalize_columns] *)

Lemma column_nth X i j : i < nrows X -> nth i (column X j) nan = entry X i j.
Proof.
  intros Hi. unfold column, entry.
  rewrite (nth_indep _ nan (nth j [] nan)) by (rewrite length_map; exact Hi).
  apply (map_nth (fun r => nth j r nan)).
Qed.

Lemma entry_in_column X i j : i < nrows X -> In (entry X i j) (column X j).
Proof.
  intros Hi. rewrite <- column_nth by exact Hi.
  apply nth_In. rewrite column_length. exact Hi.
Qed.

Lemma in_column_entry X j x :
  In x (column X j) -> exists i, i < nrows X /\ entry X i j = x.
Proof.
  intros H. apply (In_nth _ _ nan) in H as (i & Hi & E).
  rewrite column_length in Hi. exists i. split; [exact Hi|].
  rewrite <- column_nth by exact Hi. exact E.
Qed.

(** The vector [X.max(axis=0)] holds, at [j], the fold of [np.maximum]
    along column [j]. *)
Lemma amax0_nth X v j :
  wf X -> amax0 X = Ok v -> j < ncols X ->
  nth j v nan = fold_left fmaximum (tl (column X j)) (hd nan (column X j)).
Proof.
  unfold wf, amax0, column. destruct X as [n rs]; cbn [rows ncols].
  intros H E Hj. destruct rs as [|r rs]; [discriminate|].
  injection E as <-. inversion H as [|? ? Hr Hrs]; subst.
  rewrite (fold_zip_max_nth (length r)) by auto. reflexivity.
Qed.

(** X1. [normalize_columns] raises exactly on arrays with no row, and
    then ValueError; on every other array it returns an array of the
    same shape. *)
Theorem normalize_columns_raises_iff X :
  (normalize_columns X = Raise ValueError <-> nrows X = 0) /\
  (nrows X <> 0 <-> exists Y, normalize_columns X = Ok Y /\ shape Y = shape X).
Proof.
  unfold normalize_columns, amax0, nrows.
  destruct (rows X) as [|r rs] eqn:E; cbn [length].
  - split; split; try reflexivity; try congruence.
    intros (Y & HY & _). discriminate HY.
  - split; split; try discriminate; try lia.
    intros _. eexists. split; [reflexivity|]. apply divide_rows_shape.
Qed.

(** X2. Columns are normalized independently. When two arrays hold the
    same column, at whatever positions, and the maximum d of that column
    is neither nan nor a zero, then d is what [np.max] returns for it in
    both arrays, whatever their layout, and the two normalized columns
    are that column divided by d: they are equal bit for bit. (A zero
    maximum is left out: a column may hold both zeros, which compare
    equal, and which one [np.max] returns depends on the layout.) *)
Theorem normalize_columns_column_local X X' j j' d :
  wf X -> wf X' -> j < ncols X -> j' < ncols X' ->
  column X j = column X' j' ->
  column_max (column X j) d -> is_nan d = false -> is_zero d = false ->
  (forall v, maxima X v -> nth j v nan = d) /\
  (forall v', maxima X' v' -> nth j' v' nan = d) /\
  exists Y Y', normalize_columns X = Ok Y /\ normalize_columns X' = Ok Y' /\
    wf Y /\ shape Y = shape X /\ wf Y' /\ shape Y' = shape X' /\
    column Y j = map (fun x => (x / d)%float) (column X j) /\
    column Y' j' = map (fun x => (x / d)%float) (column X' j') /\
    column Y j = column Y' j'.
Proof.
  intros H H' Hj Hj' E Hd Hn Hz.
  assert (forall c d', column_max c d -> column_max c d' -> d' = d) as Huniq.
  { intros c d' Hc Hc'.
    destruct (column_max_agree _ _ _ Hc Hc' Hn) as (_ & _ & L1 & L2).
    apply leb_antisym_nonzero; assumption. }
  assert (forall v, maxima X v -> nth j v nan = d) as U.
  { intros v [_ Hmax]. exact (Huniq _ _ Hd (Hmax j Hj)). }
  assert (forall v', maxima X' v' -> nth j' v' nan = d) as U'.
  { intros v' [_ Hmax]. apply (Huniq (column X' j')); [rewrite <- E; exact Hd|].
    exact (Hmax j' Hj'). }
  split; [exact U|]. split; [exact U'|].
  destruct (column_max_not_nan X j d Hd Hn) as [Hm _].
  assert (1 <= nrows X') as Hm'
    by (rewrite <- (column_length X' j'), <- E, column_length; exact Hm).
  destruct (normalize_columns_spec X H Hm) as (v & Hv & Hmax & EY).
  destruct (normalize_columns_spec X' H' Hm') as (v' & Hv' & Hmax' & EY').
  exists (divide_rows X v), (divide_rows X' v').
  split; [exact EY|]. split; [exact EY'|].
  split; [apply divide_rows_wf; assumption|]. split; [apply divide_rows_shape|].
  split; [apply divide_rows_wf; assumption|]. split; [apply divide_rows_shape|].
  rewrite !column_divide_rows by assumption.
  rewrite (U v) by (split; assumption). rewrite (U' v') by (split; assumption).
  split; [reflexivity|]. split; [reflexivity|]. rewrite E. reflexivity.
Qed.

(** X3. A nan anywhere in a column turns the whole normalized column
    into nan: [normalize_columns] returns an array Y of the shape of X,
    each entry of which is the entry of X over the maximum of its column;
    the maximum of a column that holds a nan is nan, and so is every
    entry of that column of Y. *)
Theorem normalize_columns_nan_column X i0 j :
  wf X -> i0 < nrows X -> j < ncols X -> is_nan (entry X i0 j) = true ->
  exists Y v, normalize_columns X = Ok Y /\ quotient_by X Y v /\
    is_nan (nth j v nan) = true /\
    forall i, i < nrows X -> is_nan (entry Y i j) = true.
Proof.
  intros H Hi0 Hj Hnan.
  destruct (normalize_columns_quotient X H ltac:(lia)) as (Y & v & E & HY).
  exists Y, v. split; [exact E|]. split; [exact HY|].
  destruct HY as (_ & _ & [_ Hmax] & Hq).
  assert (is_nan (nth j v nan) = true) as Hv.
  { apply (proj1 (Hmax j Hj)). apply Exists_exists.
    exists (entry X i0 j). split; [apply entry_in_column; exact Hi0|exact Hnan]. }
  split; [exact Hv|]. intros i Hi.
  rewrite (Hq i j Hi Hj). apply div_nan_r. exact Hv.
Qed.

(** X4. In a column whose maximum is positive and finite, every
    normalized entry is at most 1, and the entries that held the maximum
    become exactly 1; there is at least one. *)
Theorem normalize_columns_unit_max X j d :
  wf X -> j < ncols X -> column_max (column X j) d -> pos_finite d = true ->
  exists Y, normalize_columns X = Ok Y /\
    (forall i, i < nrows X ->
       (entry Y i j <=? 1)%float = true /\ (entry X i j = d -> entry Y i j = 1%float)) /\
    exists i, i < nrows X /\ entry Y i j = 1%float.
Proof.
  intros H Hj Hd Hpd.
  destruct (column_max_agree _ _ _ Hd Hd (pos_finite_not_nan d Hpd)) as (Hin & Hall & _).
  rewrite Forall_forall in Hall.
  destruct (in_column_entry X j d Hin) as (i0 & Hi0 & Ei0).
  destruct (normalize_columns_spec X H ltac:(lia)) as (v & Hv & Hmax & E).
  pose proof (column_max_unique_pos _ _ _ Hd (Hmax j Hj) Hpd) as Ev.
  exists (divide_rows X v). split; [exact E|]. split.
  - intros i Hi. rewrite entry_divide_rows, Ev by assumption. split.
    + apply div_le_one; [exact Hpd|]. apply Hall. apply entry_in_column. exact Hi.
    + intros ->. apply div_self. exact Hpd.
  - exists i0. split; [exact Hi0|].
    rewrite entry_divide_rows, Ev, Ei0 by assumption. apply div_self. exact Hpd.
Qed.

(** X5. In a column whose maximum is negative and finite the order is
    turned around: every normalized entry is at least 1, and the entries
    that held the maximum become exactly 1. *)
Theorem normalize_columns_negative_max X j d :
  wf X -> j < ncols X -> column_max (column X j) d -> neg_finite d = true ->
  exists Y, normalize_columns X = Ok Y /\
    (forall i, i < nrows X ->
       (1 <=? entry Y i j)%float = true /\ (entry X i j = d -> entry Y i j = 1%float)) /\
    exists i, i < nrows X /\ entry Y i j = 1%float.
Proof.
  intros H Hj Hd Hnd.
  destruct (column_max_agree _ _ _ Hd Hd (neg_finite_not_nan d Hnd)) as (Hin & Hall & _).
  rewrite Forall_forall in Hall.
  destruct (in_column_entry X j d Hin) as (i0 & Hi0 & Ei0).
  destruct (normalize_columns_spec X H ltac:(lia)) as (v & Hv & Hmax & E).
  assert (nth j v nan = d) as Ev.
  { destruct (column_max_agree _ _ _ Hd (Hmax j Hj) (neg_finite_not_nan d Hnd))
      as (_ & _ & L1 & L2).
    apply leb_antisym_neg; assumption. }
  exists (divide_rows X v). split; [exact E|]. split.
  - intros i Hi. rewrite entry_divide_rows, Ev by assumption. split.
    + apply div_ge_one; [exact Hnd|]. apply Hall. apply entry_in_column. exact Hi.
    + intros ->. apply div_self_neg. exact Hnd.
  - exists i0. split; [exact Hi0|].
    rewrite entry_divide_rows, Ev, Ei0 by assumption. apply div_self_neg. exact Hnd.
Qed.

(** X6. In a column whose maximum is plus infinity no entry stays a
    nonzero number: [normalize_columns] returns an array Y of the shape
    of X in which every entry of that column is the entry of X over
    infinity; no entry of the column of X is nan, the finite ones become
    zeros and the infinite ones nan, and at least one entry becomes
    nan, the one that held the maximum. *)
Theorem normalize_columns_infinite_max X j :
  wf X -> j < ncols X -> column_max (column X j) infinity ->
  exists Y v, normalize_columns X = Ok Y /\ quotient_by X Y v /\
    nth j v nan = infinity /\
    (forall i, i < nrows X ->
       entry Y i j = (entry X i j / infinity)%float /\
       is_nan (entry X i j) = false /\
       (is_finite (entry X i j) = true -> is_zero (entry Y i j) = true) /\
       (is_infinity (entry X i j) = true -> is_nan (entry Y i j) = true)) /\
    exists i, i < nrows X /\ entry X i j = infinity /\ is_nan (entry Y i j) = true.
Proof.
  intros H Hj Hd.
  assert (is_nan infinity = false) as Hn by reflexivity.
  destruct (column_max_agree _ _ _ Hd Hd Hn) as (Hin & _).
  destruct (in_column_entry X j _ Hin) as (i0 & Hi0 & Ei0).
  destruct (column_max_not_nan X j _ Hd Hn) as [Hm Hx].
  destruct (normalize_columns_quotient X H Hm) as (Y & v & E & HY).
  exists Y, v. split; [exact E|]. split; [exact HY|].
  destruct HY as (_ & _ & [_ Hmax] & Hq).
  destruct (column_max_agree _ _ _ Hd (Hmax j Hj) Hn) as (_ & _ & L1 & _).
  apply leb_infinity_eq in L1.
  split; [exact L1|]. split.
  - intros i Hi. rewrite (Hq i j Hi Hj), L1.
    split; [reflexivity|]. split; [apply Hx; exact Hi|].
    split; [apply div_infinity_finite|apply div_infinity_infinity].
  - exists i0. split; [exact Hi0|]. split; [exact Ei0|].
    rewrite (Hq i0 j Hi0 Hj), L1, Ei0. reflexivity.
Qed.

(** The maximum that [X.max(axis=0)] computes for a column of a given
    array, as a [column_max]. *)
Lemma computed_column_max X j :
  wf X -> 1 <= nrows X -> j < ncols X ->
  column_max (column X j) (fold_left fmaximum (tl (column X j)) (hd nan (column X j))).
Proof.
  intros H Hm Hj. destruct (amax0_spec X H Hm) as (v & E & _ & Hmax).
  rewrite <- (amax0_nth X v j H E Hj). apply Hmax. exact Hj.
Qed.

Lemma normalize_columns_column_local_witness :
  exists Y Y', normalize_columns X_mixed = Ok Y /\ normalize_columns X_pair = Ok Y' /\
    column Y 0 = column Y' 1.
Proof.
  destruct (normalize_columns_column_local X_mixed X_pair 0 1 1%float)
    as (_ & _ & Y & Y' & E & E' & _ & _ & _ & _ & _ & _ & EC).
  - repeat constructor.
  - repeat constructor.
  - vm_compute. lia.
  - vm_compute. lia.
  - reflexivity.
  - exact (computed_column_max X_mixed 0 ltac:(repeat constructor)
             ltac:(vm_compute; lia) ltac:(vm_compute; lia)).
  - reflexivity.
  - reflexivity.
  - exists Y, Y'. split; [exact E|]. split; [exact E'|exact EC].
Defined.

Lemma normalize_columns_nan_column_witness :
  exists Y, normalize_columns X_nan = Ok Y /\ shape Y = shape X_nan /\
    forall i, i < nrows X_nan -> is_nan (entry Y i 1) = true.
Proof.
  destruct (normalize_columns_nan_column X_nan 0 1)
    as (Y & v & E & (_ & SY & _) & _ & Hi).
  - repeat constructor.
  - vm_compute. lia.
  - vm_compute. lia.
  - reflexivity.
  - exists Y. split; [exact E|]. split; [exact SY|exact Hi].
Defined.

Lemma normalize_columns_unit_max_witness :
  exists Y, normalize_columns X_doc = Ok Y /\
    (forall i, i < nrows X_doc ->
       (entry Y i 0 <=? 1)%float = true /\
       (entry X_doc i 0 = 1000%float -> entry Y i 0 = 1%float)) /\
    exists i, i < nrows X_doc /\ entry Y i 0 = 1%float.
Proof.
  apply (normalize_columns_unit_max X_doc 0 1000%float).
  - repeat constructor.
  - vm_compute. lia.
  - exact (computed_column_max X_doc 0 ltac:(repeat constructor)
             ltac:(vm_compute; lia) ltac:(vm_compute; lia)).
  - reflexivity.
Defined.

Lemma normalize_columns_negative_max_witness :
  exists Y, normalize_columns X_neg = Ok Y /\
    (forall i, i < nrows X_neg ->
       (1 <=? entry Y i 0)%float = true /\
       (entry X_neg i 0 = (-2)%float -> entry Y i 0 = 1%float)) /\
    exists i, i < nrows X_neg /\ entry Y i 0 = 1%float.
Proof.
  apply (normalize_columns_negative_max X_neg 0 (-2)%float).
  - repeat constructor.
  - vm_compute. lia.
  - exact (computed_column_max X_neg 0 ltac:(repeat constructor)
             ltac:(vm_compute; lia) ltac:(vm_compute; lia)).
  - reflexivity.
Defined.

Lemma normalize_columns_infinite_max_witness :
  exists Y, normalize_columns X_inf = Ok Y /\ shape Y = shape X_inf /\
    is_nan (entry Y 0 0) = true /\ is_zero (entry Y 1 0) = true.
Proof.
  destruct (normalize_columns_infinite_max X_inf 0)
    as (Y & v & E & (_ & SY & _) & _ & Hi & _).
  - repeat constructor.
  - vm_compute. lia.
  - exact (computed_column_max X_inf 0 ltac:(repeat constructor)
             ltac:(vm_compute; lia) ltac:(vm_compute; lia)).
  - exists Y. split; [exact E|]. split; [exact SY|]. split.
    + apply (Hi 0); [vm_compute; lia|reflexivity].
    + apply (Hi 1); [vm_compute; lia|reflexivity].
Defined.

(** ** More about [find_Q] and [rsvd] *)

Lemma slice_stop_neg k n : (k < 0)%Z -> slice_stop k n = n - Z.to_nat (- k).
Proof.
  intros Hk. unfold slice_stop. destruct (Z.ltb_spec k 0); [reflexivity|lia].
Qed.

Lemma slice_stop_twice k1 k2 n :
  (0 <= k1 <= k2)%Z -> slice_stop k1 (slice_stop k2 n) = slice_stop k1 n.
Proof. intros H. rewrite !slice_stop_nonneg by lia. lia. Qed.

Lemma slice_stop_mono k1 k2 n :
  (0 <= k1 <= k2)%Z -> slice_stop k1 n <= slice_stop k2 n.
Proof. intros H. rewrite !slice_stop_nonneg by lia. lia. Qed.

Lemma take_cols_twice k1 k2 X :
  (0 <= k1 <= k2)%Z -> take_cols k1 (take_cols k2 X) = take_cols k1 X.
Proof.
  intros H. unfold take_cols. cbn [ncols rows].
  rewrite slice_stop_twice by exact H. f_equal.
  rewrite map_map. apply map_ext. intros r.
  rewrite firstn_firstn. f_equal.
  pose proof (slice_stop_mono k1 k2 (ncols X) H). lia.
Qed.

Lemma take_vec_twice k1 k2 v :
  (0 <= k1 <= k2)%Z -> take_vec k1 (take_vec k2 v) = take_vec k1 v.
Proof.
  intros H. unfold take_vec. rewrite firstn_firstn, length_firstn.
  pose proof (slice_stop_le k2 (length v)).
  rewrite (Nat.min_l (slice_stop k2 (length v))) by lia.
  rewrite slice_stop_twice by exact H. f_equal.
  pose proof (slice_stop_mono k1 k2 (length v) H). lia.
Qed.

Lemma take_rows_twice k1 k2 X :
  (0 <= k1 <= k2)%Z -> take_rows k1 (take_rows k2 X) = take_rows k1 X.
Proof.
  intros H. unfold take_rows, nrows. cbn [ncols rows]. f_equal.
  rewrite firstn_firstn, length_firstn. fold (nrows X).
  pose proof (slice_stop_le k2 (nrows X)).
  rewrite (Nat.min_l (slice_stop k2 (nrows X))) by lia.
  rewrite slice_stop_twice by exact H. f_equal.
  pose proof (slice_stop_mono k1 k2 (nrows X) H). lia.
Qed.

(** [rsvd], step by step. *)
Lemma rsvd_unfold {N : Numpy} A k l return_Q (s : rng) :
  rsvd A k l return_Q s =
  match find_Q A (match l with None => (2 * k)%Z | Some l0 => l0 end) s with
  | (Ok Q, s1) =>
      match mm (T Q) A with
      | Ok B =>
          match linalg_svd B with
          | Ok (S_, Sigma, Vt) =>
              match mm Q S_ with
              | Ok U => (Ok (returned k return_Q U Sigma Vt Q), s1)
              | Raise e => (Raise e, s1)
              end
          | Raise e => (Raise e, s1)
          end
      | Raise e => (Raise e, s1)
      end
  | (Raise e, s1) => (Raise e, s1)
  end.
Proof.
  unfold rsvd, bind, lift, ret, returned.
  destruct (find_Q A _ s) as [[Q|e] s1]; [|reflexivity].
  destruct (mm (T Q) A) as [B|e]; [|reflexivity].
  destruct (linalg_svd B) as [[[S Sigma] Vt]|e]; [|reflexivity].
  destruct (mm Q S) as [U|e]; [|reflexivity].
  destruct return_Q; reflexivity.
Qed.

(** X7. With [return_Q] the call returns the same three factors as
    without it, followed by the basis Q that [find_Q] returned,
    untruncated; when one call raises, so does the other, with the same
    exception. The generator ends in the same state. *)
Theorem rsvd_return_Q {N : Numpy} A k l (s : rng) :
  let l' := match l with None => (2 * k)%Z | Some l0 => l0 end in
  match fst (rsvd A k l false s) with
  | Ok (Ret3 U Sigma Vt) =>
      exists Q, fst (find_Q A l' s) = Ok Q /\
        rsvd A k l true s = (Ok (Ret4 U Sigma Vt Q), snd (rsvd A k l false s))
  | Ok (Ret4 _ _ _ _) => False
  | Raise e => rsvd A k l true s = (Raise e, snd (rsvd A k l false s))
  end.
Proof.
  intros l'. rewrite !rsvd_unfold. fold l'.
  destruct (find_Q A l' s) as [[Q|e] s1]; [|reflexivity].
  destruct (mm (T Q) A) as [B|e]; [|reflexivity].
  destruct (linalg_svd B) as [[[S Sigma] Vt]|e]; [|reflexivity].
  destruct (mm Q S) as [U|e]; [|reflexivity].
  cbn. exists Q. split; reflexivity.
Qed.

(** X12. A negative oversampling number, given or defaulted from a
    negative k, makes [find_Q] and [rsvd] raise ValueError before anything
    is drawn: the generator is left as it was. *)
Theorem rsvd_negative_l {N : Numpy} A k l return_Q (s : rng) :
  let l' := match l with None => (2 * k)%Z | Some l0 => l0 end in
  (l' < 0)%Z ->
  find_Q A l' s = (Raise ValueError, s) /\
  rsvd A k l return_Q s = (Raise ValueError, s).
Proof.
  intros l' H.
  assert (find_Q A l' s = (Raise ValueError, s)) as E.
  { unfold find_Q, shape, bind, np_random_randn.
    destruct (Z.ltb_spec l' 0); [reflexivity|lia]. }
  split; [exact E|].
  rewrite rsvd_unfold. fold l'. rewrite E. reflexivity.
Qed.

(** X10. Truncation is consistent: from the same generator state and
    with the same l, the factors returned for k1 are the factors returned
    for any k2 >= k1 >= 0, sliced to k1. *)
Theorem rsvd_truncation_consistent {N : Numpy} A k1 k2 l (s : rng) U2 S2 V2 :
  (0 <= k1 <= k2)%Z ->
  fst (rsvd A k2 (Some l) false s) = Ok (Ret3 U2 S2 V2) ->
  rsvd A k1 (Some l) false s =
    (Ok (Ret3 (take_cols k1 U2) (take_vec k1 S2) (take_rows k1 V2)),
     snd (rsvd A k2 (Some l) false s)).
Proof.
  intros Hk. rewrite !rsvd_unfold.
  destruct (find_Q A l s) as [[Q|e] s1]; [|discriminate].
  destruct (mm (T Q) A) as [B|e]; [|discriminate].
  destruct (linalg_svd B) as [[[S Sigma] Vt]|e]; [|discriminate].
  destruct (mm Q S) as [U|e]; [|discriminate].
  cbn [fst snd returned]. intros E. injection E as <- <- <-.
  rewrite take_cols_twice, take_vec_twice, take_rows_twice by exact Hk.
  reflexivity.
Qed.

Section MoreClaims.
Context {N : Numpy} {C : NumpyContract N}.

(** X8. The shape law of [rsvd] for every k >= 0 and l >= 0 on an array
    with at least one row. The call runs Stage A and forms B = Q^T A;
    then either [np.linalg.svd] raises LinAlgError on B, and that is what
    the call raises, or the call returns: U_k has shape
    (m, min(k, m, l)), Sigma_k has min(k, m, l, n) entries in descending
    order, Vt_k has shape (min(k, n), n), and the basis returned with
    [return_Q] is the Q of Stage A, of shape (m, min(m, l)). Nothing else
    is raised. *)
Theorem rsvd_shapes A k l s :
  wf A -> 1 <= nrows A -> (0 <= l)%Z -> (0 <= k)%Z ->
  exists Omega Y Yn Q R s' B,
    stage_A A l s Omega Y Yn Q R s' /\ mm (T Q) A = Ok B /\
    wf Q /\ shape Q = (nrows A, Nat.min (nrows A) (Z.to_nat l)) /\
    ((linalg_svd B = Raise LinAlgError /\
      rsvd A k (Some l) true s = (Raise LinAlgError, s')) \/
     exists Uk Sk Vtk,
       rsvd A k (Some l) true s = (Ok (Ret4 Uk Sk Vtk Q), s') /\
       wf Uk /\
       shape Uk = (nrows A, Nat.min (Z.to_nat k) (Nat.min (nrows A) (Z.to_nat l))) /\
       length Sk =
         Nat.min (Z.to_nat k) (Nat.min (Nat.min (nrows A) (Z.to_nat l)) (ncols A)) /\
       descending Sk = true /\
       wf Vtk /\ shape Vtk = (Nat.min (Z.to_nat k) (ncols A), ncols A)).
Proof.
  intros HA Hm Hl Hk.
  destruct (rsvd_outcome A k l true s HA Hm Hl)
    as (Omega & Y & Yn & Q & R & s' & B & SA & E5 & WQ & SQ & _ & _ & Hsvd).
  exists Omega, Y, Yn, Q, R, s', B.
  repeat (split; [assumption|]).
  destruct Hsvd as [[E6 E]|(S & Sigma & Vt & U & _ & E & _ & LS & DS & SVt & SU & WUk & WVtk)].
  { left. split; [exact E6|exact E]. }
  right.
  destruct (shape_inv _ _ _ SVt) as [RVt CVt].
  destruct (shape_inv _ _ _ SU) as [RU CU].
  exists (take_cols k U), (take_vec k Sigma), (take_rows k Vt).
  split; [exact E|].
  rewrite take_cols_shape, take_vec_length, take_rows_shape.
  rewrite !slice_stop_nonneg by lia. rewrite RU, CU, LS, RVt, CVt.
  split; [exact WUk|]. split; [reflexivity|].
  split; [reflexivity|]. split; [apply descending_firstn; exact DS|].
  split; [exact WVtk|reflexivity].
Qed.

(** X9. A negative k is not refused: the slices count from the end. On
    an array with at least one row and for l >= 0, either
    [np.linalg.svd] raises LinAlgError on B = Q^T A, and that is what
    the call raises, or [rsvd] returns all but the last |k| columns of U,
    entries of Sigma and rows of Vt (nothing when there are not that
    many). *)
Theorem rsvd_negative_k A k l s :
  wf A -> 1 <= nrows A -> (0 <= l)%Z -> (k < 0)%Z ->
  exists Omega Y Yn Q R s' B,
    stage_A A l s Omega Y Yn Q R s' /\ mm (T Q) A = Ok B /\
    ((linalg_svd B = Raise LinAlgError /\
      rsvd A k (Some l) false s = (Raise LinAlgError, s')) \/
     exists S Sigma Vt U Uk Sk Vtk,
       stage_B A Q B S Sigma Vt U /\
       rsvd A k (Some l) false s = (Ok (Ret3 Uk Sk Vtk), s') /\
       Uk = mkarr (ncols U - Z.to_nat (- k)) (map (firstn (ncols U - Z.to_nat (- k))) (rows U)) /\
       Sk = firstn (length Sigma - Z.to_nat (- k)) Sigma /\
       Vtk = mkarr (ncols Vt) (firstn (nrows Vt - Z.to_nat (- k)) (rows Vt)) /\
       shape Uk = (nrows A, Nat.min (nrows A) (Z.to_nat l) - Z.to_nat (- k)) /\
       length Sk = Nat.min (Nat.min (nrows A) (Z.to_nat l)) (ncols A) - Z.to_nat (- k) /\
       shape Vtk = (ncols A - Z.to_nat (- k), ncols A)).
Proof.
  intros HA Hm Hl Hk.
  destruct (rsvd_outcome A k l false s HA Hm Hl)
    as (Omega & Y & Yn & Q & R & s' & B & SA & E5 & _ & _ & _ & _ & Hsvd).
  exists Omega, Y, Yn, Q, R, s', B.
  split; [exact SA|]. split; [exact E5|].
  destruct Hsvd as [[E6 E]|(S & Sigma & Vt & U & SB & E & _ & LS & _ & SVt & SU & _)].
  { left. split; [exact E6|exact E]. }
  right.
  destruct (shape_inv _ _ _ SVt) as [RVt CVt].
  destruct (shape_inv _ _ _ SU) as [RU CU].
  exists S, Sigma, Vt, U, (take_cols k U), (take_vec k Sigma), (take_rows k Vt).
  split; [exact SB|]. split; [exact E|].
  split; [unfold take_cols; rewrite slice_stop_neg by lia; reflexivity|].
  split; [unfold take_vec; rewrite slice_stop_neg by lia; reflexivity|].
  split; [unfold take_rows; rewrite slice_stop_neg by lia; reflexivity|].
  rewrite take_cols_shape, take_vec_length, take_rows_shape.
  rewrite !slice_stop_neg by lia. rewrite RU, CU, LS, RVt, CVt. auto.
Qed.

(** X11. On an array with no row, for every l >= 0, [find_Q] and [rsvd]
    raise ValueError: the sketch has no row, and [normalize_columns]
    reduces along an empty axis. *)
Theorem rsvd_raises_without_rows A k l return_Q s :
  let l' := match l with None => (2 * k)%Z | Some l0 => l0 end in
  wf A -> nrows A = 0 -> (0 <= l')%Z ->
  fst (find_Q A l' s) = Raise ValueError /\
  fst (rsvd A k l return_Q s) = Raise ValueError.
Proof.
  intros l' HA Hm Hl. split.
  - rewrite (find_Q_no_row A l' s HA Hm Hl). reflexivity.
  - replace (rsvd A k l return_Q s) with (rsvd A k (Some l') return_Q s)
      by (destruct l; reflexivity).
    rewrite (rsvd_no_row A k l' return_Q s HA Hm Hl). reflexivity.
Qed.

(** X14. For every l >= 0, on an array with at least one row,
    [find_Q] returns a basis of shape (m, min(m, l)): no more columns
    than rows, and none at all for l = 0. The generator has advanced by
    the one draw of Omega. *)
Theorem find_Q_shape A l s :
  wf A -> 1 <= nrows A -> (0 <= l)%Z ->
  exists Q,
    find_Q A l s = (Ok Q, snd (random_randn (ncols A) (Z.to_nat l) s)) /\
    wf Q /\ shape Q = (nrows A, Nat.min (nrows A) (Z.to_nat l)) /\
    ncols Q <= nrows Q.
Proof.
  intros HA Hm Hl.
  destruct (stage_A_runs A l s HA Hm Hl)
    as (Omega & Y & Yn & Q & R & s' & B & SA & _ & _ & WQ & SQ & _).
  exists Q. destruct (shape_inv _ _ _ SQ) as [RQ CQ].
  split; [|split; [exact WQ|split; [exact SQ|lia]]].
  rewrite (find_Q_of_stage_A A l s _ _ _ _ _ _ Hl SA).
  destruct SA as (E1 & _). rewrite E1. reflexivity.
Qed.

End MoreClaims.

Lemma rsvd_negative_l_witness :
  find_Q (N := Fixture.backend) A_2x3 (2 * -1) 42%Z = (Raise ValueError, 42%Z) /\
  rsvd (N := Fixture.backend) A_2x3 (-1) None false 42%Z = (Raise ValueError, 42%Z).
Proof.
  apply (@rsvd_negative_l Fixture.backend A_2x3 (-1) None false 42%Z). reflexivity.
Defined.

Lemma rsvd_truncation_consistent_witness :
  exists U2 S2 V2,
    fst (rsvd (N := Fixture.backend) A_2x3 2 (Some 2%Z) false 42%Z) = Ok (Ret3 U2 S2 V2) /\
    rsvd (N := Fixture.backend) A_2x3 1 (Some 2%Z) false 42%Z =
      (Ok (Ret3 (take_cols 1 U2) (take_vec 1 S2) (take_rows 1 V2)),
       snd (rsvd (N := Fixture.backend) A_2x3 2 (Some 2%Z) false 42%Z)).
Proof.
  do 3 eexists. split; [vm_compute; reflexivity|].
  apply (@rsvd_truncation_consistent Fixture.backend A_2x3 1 2 2 42%Z); [lia|].
  vm_compute. reflexivity.
Defined.

Lemma rsvd_shapes_witness :
  exists Uk Sk Vtk Q s',
    rsvd (N := GramSchmidt.backend) A_2x3 5 (Some 1%Z) true 42%Z =
      (Ok (Ret4 Uk Sk Vtk Q), s') /\
    shape Uk = (2, 1) /\ length Sk = 1 /\ shape Vtk = (3, 3) /\ shape Q = (2, 1).
Proof.
  destruct (@rsvd_shapes GramSchmidt.backend gram_schmidt_contract A_2x3 5 1 42%Z)
    as (Omega & Y & Yn & Q & R & s' & B & _ & _ & _ & SQ &
        [[_ E]|(Uk & Sk & Vtk & E & _ & SU & LS & _ & _ & SV)]).
  - repeat constructor.
  - vm_compute. lia.
  - lia.
  - lia.
  - apply (f_equal fst) in E. vm_compute in E. discriminate E.
  - exists Uk, Sk, Vtk, Q, s'. repeat split; assumption.
Defined.

Lemma rsvd_negative_k_witness :
  exists Uk Sk Vtk s',
    rsvd (N := GramSchmidt.backend) A_2x3 (-1) (Some 2%Z) false 42%Z =
      (Ok (Ret3 Uk Sk Vtk), s') /\
    shape Uk = (2, 1) /\ length Sk = 1 /\ shape Vtk = (2, 3).
Proof.
  destruct (@rsvd_negative_k GramSchmidt.backend gram_schmidt_contract A_2x3 (-1) 2 42%Z)
    as (Omega & Y & Yn & Q & R & s' & B & _ & _ &
        [[_ E]|(S & Sigma & Vt & U & Uk & Sk & Vtk & _ & E & _ & _ & _ & SU & LS & SV)]).
  - repeat constructor.
  - vm_compute. lia.
  - lia.
  - lia.
  - apply (f_equal fst) in E. vm_compute in E. discriminate E.
  - exists Uk, Sk, Vtk, s'. repeat split; assumption.
Defined.

Lemma rsvd_raises_without_rows_witness :
  fst (find_Q (N := Fixture.backend) A_0x3 2 42%Z) = Raise ValueError /\
  fst (rsvd (N := Fixture.backend) A_0x3 1 None true 42%Z) = Raise ValueError.
Proof.
  apply (@rsvd_raises_without_rows Fixture.backend fixture_contract A_0x3 1 None true 42%Z).
  - constructor.
  - reflexivity.
  - lia.
Defined.

Lemma rsvd_generator_state_witness :
  snd (rsvd (N := Fixture.backend) A_2x3 1 None false 42%Z) =
  snd (Fixture.randn 3 2 42%Z).
Proof.
  apply (@rsvd_generator_state Fixture.backend A_2x3 1 None false 42%Z). lia.
Defined.

Lemma find_Q_shape_witness :
  exists Q, fst (find_Q (N := Fixture.backend) A_2x3 5 42%Z) = Ok Q /\ shape Q = (2, 2).
Proof.
  destruct (@find_Q_shape Fixture.backend fixture_contract A_2x3 5 42%Z)
    as (Q & E & _ & SQ & _).
  - repeat constructor.
  - vm_compute. lia.
  - lia.
  - exists Q. rewrite E. split; [reflexivity|exact SQ].
Defined.
